(** * MIDI Time Code generator: a shallow embedding of [MTCGenerator]

    The class [MTCGenerator] (mtc-generator.js) keeps an
    hours:minutes:seconds:frames counter, a position in the 8-piece
    quarter-frame cycle and a frame rate, and writes MIDI Time Code messages
    to a MIDI output port.  Every method is embedded below as a function on
    an explicit object state; the two methods that throw return the
    completion together with the state the throw leaves behind.

    Numbers.  The timecode fields and the cursor only ever hold integers and
    are modelled in [Z]; JavaScript's bit operators work on 32-bit integers,
    and that conversion is written out in module [JS].  The frame rate may be
    the non-integer 29.97 and is modelled as a rational in [Q], compared with
    [Qeq_bool]/[Qle_bool] where the source uses [===], [includes] and [>=]. *)

From Stdlib Require Import ZArith QArith Qround List String Bool Lia.
Import ListNotations.
Local Open Scope string_scope.
Local Open Scope list_scope.
Local Open Scope Z_scope.

(** ** JavaScript integer operators *)

Module JS.

(** [ToInt32]: reduction modulo 2^32 into [-2^31, 2^31). *)
Definition ToInt32 (z : Z) : Z := (z + 2 ^ 31) mod 2 ^ 32 - 2 ^ 31.

(** [a << b] *)
Definition shl (a b : Z) : Z := ToInt32 (Z.shiftl (ToInt32 a) (b mod 32)).

(** [a >> b] *)
Definition sar (a b : Z) : Z := Z.shiftr (ToInt32 a) (b mod 32).

(** [a | b] *)
Definition bor (a b : Z) : Z := Z.lor (ToInt32 a) (ToInt32 b).

(** [a & b] *)
Definition band (a b : Z) : Z := Z.land (ToInt32 a) (ToInt32 b).

(** [a % b]: the remainder takes the sign of the dividend. *)
Definition rem (a b : Z) : Z := Z.rem a b.

(** [Math.floor(a / b)] on integers, for a positive divisor. *)
Definition floor_div (a b : Z) : Z := a / b.

(** [arr[i]]: [None] stands for [undefined] (index out of the array). *)
Definition index (arr : list Z) (i : Z) : option Z :=
  if i <? 0 then None else nth_error arr (Z.to_nat i).

(** [undefined] converts to 0 under a bit operator. *)
Definition of_undefined (o : option Z) : Z :=
  match o with Some v => v | None => 0 end.

(** [s.includes(sub)] on strings. *)
Fixpoint includes (sub s : string) : bool :=
  String.prefix sub s ||
  match s with
  | EmptyString => false
  | String _ rest => includes sub rest
  end.

End JS.

(** ** The object state *)

(** Calls received by the MIDI output ([this.output]). *)
Inductive OutputCall : Type :=
| OpenPort (port : Z)
| SendMessage (bytes : list Z)
| ClosePort.

(** A thrown [Error], carrying its message. *)
Inductive Exception : Type :=
| Error (message : string).

Inductive Completion : Type :=
| Normal
| Throw (e : Exception).

Definition InvalidFrameRate : Exception :=
  Error "Invalid frame rate. Must be 24, 25, 29.97, or 30".

Definition PortNotFound : Exception :=
  Error "MadMapper MIDI input port not found".

(** The fields of an [MTCGenerator], the calls its output has received
    (oldest first) and the intervals it has created with [setInterval]: the
    handle of an interval is its index in [intervals], and the flag tells
    whether it is still active (not cleared). *)
Record MTCGenerator : Type := mkGen {
  output : list OutputCall;
  running : bool;
  frameRate : Q;
  hours : Z;
  minutes : Z;
  seconds : Z;
  frames : Z;
  quarterFrame : Z;
  timer : option nat;
  intervals : list (Z * bool)
}.

Definition set_output (v : list OutputCall) (g : MTCGenerator) : MTCGenerator :=
  mkGen v (running g) (frameRate g) (hours g) (minutes g) (seconds g)
        (frames g) (quarterFrame g) (timer g) (intervals g).

Definition set_running (v : bool) (g : MTCGenerator) : MTCGenerator :=
  mkGen (output g) v (frameRate g) (hours g) (minutes g) (seconds g)
        (frames g) (quarterFrame g) (timer g) (intervals g).

Definition set_frameRate (v : Q) (g : MTCGenerator) : MTCGenerator :=
  mkGen (output g) (running g) v (hours g) (minutes g) (seconds g)
        (frames g) (quarterFrame g) (timer g) (intervals g).

Definition set_hours (v : Z) (g : MTCGenerator) : MTCGenerator :=
  mkGen (output g) (running g) (frameRate g) v (minutes g) (seconds g)
        (frames g) (quarterFrame g) (timer g) (intervals g).

Definition set_minutes (v : Z) (g : MTCGenerator) : MTCGenerator :=
  mkGen (output g) (running g) (frameRate g) (hours g) v (seconds g)
        (frames g) (quarterFrame g) (timer g) (intervals g).

Definition set_seconds (v : Z) (g : MTCGenerator) : MTCGenerator :=
  mkGen (output g) (running g) (frameRate g) (hours g) (minutes g) v
        (frames g) (quarterFrame g) (timer g) (intervals g).

Definition set_frames (v : Z) (g : MTCGenerator) : MTCGenerator :=
  mkGen (output g) (running g) (frameRate g) (hours g) (minutes g) (seconds g)
        v (quarterFrame g) (timer g) (intervals g).

Definition set_quarterFrame (v : Z) (g : MTCGenerator) : MTCGenerator :=
  mkGen (output g) (running g) (frameRate g) (hours g) (minutes g) (seconds g)
        (frames g) v (timer g) (intervals g).

Definition set_timer (v : option nat) (g : MTCGenerator) : MTCGenerator :=
  mkGen (output g) (running g) (frameRate g) (hours g) (minutes g) (seconds g)
        (frames g) (quarterFrame g) v (intervals g).

Definition set_intervals (v : list (Z * bool)) (g : MTCGenerator) : MTCGenerator :=
  mkGen (output g) (running g) (frameRate g) (hours g) (minutes g) (seconds g)
        (frames g) (quarterFrame g) (timer g) v.

(** ** The MIDI output and the timers *)

(** [this.output.sendMessage(bytes)] *)
Definition sendMessage (bytes : list Z) (g : MTCGenerator) : MTCGenerator :=
  set_output (output g ++ [SendMessage bytes]) g.

(** [this.output.closePort()] *)
Definition closePort (g : MTCGenerator) : MTCGenerator :=
  set_output (output g ++ [ClosePort]) g.

(** [setInterval(callback, delay)]: a new active interval; its handle is
    returned.  The callback is always [sendQuarterFrame] (see [fire]). *)
Definition setInterval (delay : Z) (g : MTCGenerator) : nat * MTCGenerator :=
  (List.length (intervals g), set_intervals (intervals g ++ [(delay, true)]) g).

Fixpoint deactivate (id : nat) (l : list (Z * bool)) : list (Z * bool) :=
  match l, id with
  | [], _ => []
  | (d, _) :: rest, O => (d, false) :: rest
  | x :: rest, S id' => x :: deactivate id' rest
  end.

(** [clearInterval(handle)]; clearing [undefined] does nothing. *)
Definition clearInterval (handle : option nat) (g : MTCGenerator) : MTCGenerator :=
  match handle with
  | None => g
  | Some id => set_intervals (deactivate id (intervals g)) g
  end.

(** Whether the interval with handle [id] is active. *)
Definition active (id : nat) (g : MTCGenerator) : bool :=
  match nth_error (intervals g) id with
  | Some (_, a) => a
  | None => false
  end.

(** The number of active intervals (running tick loops). *)
Definition activeCount (g : MTCGenerator) : nat :=
  List.length (filter snd (intervals g)).

(** ** The methods *)

(** [toBCD(value)] *)
Definition toBCD (value : Z) : Z :=
  JS.band (JS.bor (JS.shl (JS.floor_div value 10) 4) (JS.rem value 10)) 0x7F.

(** The [rateCode] constant of [sendFullFrame]. *)
Definition rateCode (g : MTCGenerator) : Z :=
  if Qeq_bool (frameRate g) 24 then 0
  else if Qeq_bool (frameRate g) 25 then 1
  else if Qeq_bool (frameRate g) 29.97 then 2
  else 3.

(** The [fullFrame] array of [sendFullFrame]. *)
Definition fullFrame (g : MTCGenerator) : list Z :=
  [ 0xF0; 0x7F; 0x7F; 0x01; 0x01;
    JS.bor (toBCD (hours g)) (JS.shl (rateCode g) 5);
    toBCD (minutes g);
    toBCD (seconds g);
    toBCD (frames g);
    0xF7 ].

(** [sendFullFrame()] *)
Definition sendFullFrame (g : MTCGenerator) : MTCGenerator :=
  sendMessage (fullFrame g) g.

(** The [pieces] array of [sendQuarterFrame]. *)
Definition pieces (g : MTCGenerator) : list Z :=
  [ JS.band (frames g) 0x0F;
    JS.sar (JS.band (frames g) 0xF0) 4;
    JS.band (seconds g) 0x0F;
    JS.sar (JS.band (seconds g) 0xF0) 4;
    JS.band (minutes g) 0x0F;
    JS.sar (JS.band (minutes g) 0xF0) 4;
    JS.band (hours g) 0x0F;
    JS.sar (JS.band (hours g) 0xF0) 4 ].

(** The message [sendQuarterFrame] sends. *)
Definition quarterFrameMessage (g : MTCGenerator) : list Z :=
  [ 0xF1;
    JS.bor (JS.shl (quarterFrame g) 4)
           (JS.of_undefined (JS.index (pieces g) (quarterFrame g))) ].

(** The timecode update of [sendQuarterFrame] (the body of its
    [if (this.quarterFrame === 0)]). *)
Definition advanceFrame (g : MTCGenerator) : MTCGenerator :=
  let g := set_frames (frames g + 1) g in
  if Qle_bool (frameRate g) (inject_Z (frames g)) then
    let g := set_frames 0 g in
    let g := set_seconds (seconds g + 1) g in
    if 60 <=? seconds g then
      let g := set_seconds 0 g in
      let g := set_minutes (minutes g + 1) g in
      if 60 <=? minutes g then
        let g := set_minutes 0 g in
        let g := set_hours (hours g + 1) g in
        if 24 <=? hours g then set_hours 0 g else g
      else g
    else g
  else g.

(** [sendQuarterFrame()] *)
Definition sendQuarterFrame (g : MTCGenerator) : MTCGenerator :=
  let g := sendMessage (quarterFrameMessage g) g in
  let g := set_quarterFrame (JS.rem (quarterFrame g + 1) 8) g in
  if quarterFrame g =? 0 then advanceFrame g else g.

(** The [interval] constant of [start]:
    [Math.floor(1000 / (this.frameRate * 4))], for a non-zero frame rate. *)
Definition interval (g : MTCGenerator) : Z :=
  Qfloor (1000 / (frameRate g * 4)).

(** [start()] *)
Definition start (g : MTCGenerator) : MTCGenerator :=
  if running g then g
  else
    let g := set_running true g in
    let g := sendFullFrame g in
    let '(id, g) := setInterval (interval g) g in
    set_timer (Some id) g.

(** [stop()] *)
Definition stop (g : MTCGenerator) : MTCGenerator :=
  if negb (running g) then g
  else
    let g := set_running false g in
    clearInterval (timer g) g.

(** [setPosition(hours, minutes, seconds, frames)] *)
Definition setPosition (h m s f : Z) (g : MTCGenerator) : MTCGenerator :=
  let g := set_hours h g in
  let g := set_minutes m g in
  let g := set_seconds s g in
  let g := set_frames f g in
  let g := set_quarterFrame 0 g in
  if running g then sendFullFrame g else g.

(** [[24, 25, 29.97, 30].includes(rate)] *)
Definition validRate (rate : Q) : bool :=
  existsb (Qeq_bool rate) [24; 25; 29.97; 30]%Q.

(** [setFrameRate(rate)] *)
Definition setFrameRate (rate : Q) (g : MTCGenerator) : Completion * MTCGenerator :=
  if negb (validRate rate) then (Throw InvalidFrameRate, g)
  else (Normal, set_frameRate rate g).

(** [close()] *)
Definition close (g : MTCGenerator) : MTCGenerator :=
  let g := stop g in
  closePort g.

(** [handleExit()], up to its final [process.exit(0)]. *)
Definition handleExit (g : MTCGenerator) : MTCGenerator :=
  let g := stop g in
  close g.

(** The callback of the interval with handle [id] runs: nothing happens when
    the interval has been cleared. *)
Definition fire (id : nat) (g : MTCGenerator) : MTCGenerator :=
  if active id g then sendQuarterFrame g else g.

(** The loop of [findAndConnectToMadMapper]: [i] is the index of the first
    name of [names], [found] the value of [madMapperPort] so far. *)
Fixpoint scanPorts (names : list string) (i found : Z) : Z :=
  match names with
  | [] => found
  | portName :: rest =>
      scanPorts rest (i + 1)
                (if JS.includes "MadMapper In" portName then i else found)
  end.

(** [findAndConnectToMadMapper()], on the port names the output lists:
    the calls made on the output, or the exception thrown. *)
Definition findAndConnectToMadMapper (names : list string)
  : Exception + list OutputCall :=
  let madMapperPort := scanPorts names 0 (-1) in
  if madMapperPort =? -1 then inl PortNotFound
  else inr [OpenPort madMapperPort].

(** [new MTCGenerator()], on the port names the output lists.  The exit
    handlers it registers on the process are not part of the state. *)
Definition construct (names : list string) : Exception + MTCGenerator :=
  match findAndConnectToMadMapper names with
  | inl e => inl e
  | inr calls => inr (mkGen calls false 30 0 0 0 0 0 None [])
  end.

(** ** The specification's vocabulary *)

(** The four frame rates of the specification. *)
Inductive FrameRate : Type := Fps24 | Fps25 | Fps2997 | Fps30.

Definition rateValue (r : FrameRate) : Q :=
  match r with
  | Fps24 => 24
  | Fps25 => 25
  | Fps2997 => 29.97
  | Fps30 => 30
  end.

(** The 2-bit rate code of the full-frame message: 24->0, 25->1, 29.97->2,
    30->3. *)
Definition rateCodeOf (r : FrameRate) : Z :=
  match r with
  | Fps24 => 0
  | Fps25 => 1
  | Fps2997 => 2
  | Fps30 => 3
  end.

(** Packed BCD in the low 7 bits, on mathematical integers:
    [((v / 10) << 4 | v % 10) & 0x7F]. *)
Definition BCD (v : Z) : Z :=
  Z.land (Z.lor (Z.shiftl (v / 10) 4) (v mod 10)) 0x7F.

(** The number of frames counted per second: 29.97 counts as 30. *)
Definition countRate (rate : Q) : Z := Qceiling rate.

(** The low and the high 4 bits of a byte. *)
Definition lowNibble (v : Z) : Z := v mod 16.
Definition highNibble (v : Z) : Z := (v / 16) mod 16.

(** The nibble carried by quarter-frame piece [k]. *)
Definition nibble (g : MTCGenerator) (k : Z) : Z :=
  match k with
  | 0 => lowNibble (frames g)
  | 1 => highNibble (frames g)
  | 2 => lowNibble (seconds g)
  | 3 => highNibble (seconds g)
  | 4 => lowNibble (minutes g)
  | 5 => highNibble (minutes g)
  | 6 => lowNibble (hours g)
  | 7 => highNibble (hours g)
  | _ => 0
  end.

(** The timecode held by a generator: (hours, minutes, seconds, frames). *)
Definition timecode (g : MTCGenerator) : Z * Z * Z * Z :=
  (hours g, minutes g, seconds g, frames g).

(** [n] consecutive ticks. *)
Definition ticks (n : nat) (g : MTCGenerator) : MTCGenerator :=
  Nat.iter n sendQuarterFrame g.

(** One frame later, in the specification's words: increment frames; when
    frames equals the counting rate reset it to 0 and increment seconds;
    likewise seconds and minutes at 60, and hours at 24. *)
Definition nextTimecode (R : Z) (tc : Z * Z * Z * Z) : Z * Z * Z * Z :=
  let '(h, m, s, f) := tc in
  let f := f + 1 in
  if f =? R then
    let s := s + 1 in
    if s =? 60 then
      let m := m + 1 in
      if m =? 60 then
        let h := h + 1 in
        if h =? 24 then (0, 0, 0, 0) else (h, 0, 0, 0)
      else (h, m, 0, 0)
    else (h, m, s, 0)
  else (h, m, s, f).

(** One frame later on any timecode, within the bounds or not: increment
    frames; when it has reached the counting rate reset it to 0 and increment
    seconds; when seconds has reached 60 reset it and increment minutes;
    when minutes has reached 60 reset it and increment hours; when hours has
    reached 24 reset it. *)
Definition advancedTimecode (R : Z) (tc : Z * Z * Z * Z) : Z * Z * Z * Z :=
  let '(h, m, s, f) := tc in
  if R <=? f + 1 then
    if 60 <=? s + 1 then
      if 60 <=? m + 1 then
        if 24 <=? h + 1 then (0, 0, 0, 0) else (h + 1, 0, 0, 0)
      else (h, m + 1, 0, 0)
    else (h, m, s + 1, 0)
  else (h, m, s, f + 1).

(** The bounds of the data model on a timecode counted at [R] frames per
    second. *)
Definition timecodeInRange (R : Z) (tc : Z * Z * Z * Z) : Prop :=
  let '(h, m, s, f) := tc in
  0 <= h < 24 /\ 0 <= m < 60 /\ 0 <= s < 60 /\ 0 <= f < R.


(** The number of [closePort] calls the output has received. *)
Definition closeCalls (g : MTCGenerator) : nat :=
  List.length (filter (fun c => match c with ClosePort => true | _ => false end)
                      (output g)).

(** ** The program and its callers *)

(** index.js: construct a generator, seek to 00:00:00:00 and start; an
    exception is caught (and its message logged), so the program ends with
    either the exception or the running generator. *)
Definition main (names : list string) : Exception + MTCGenerator :=
  match construct names with
  | inl e => inl e
  | inr mtc =>
      let mtc := setPosition 0 0 0 0 mtc in
      inr (start mtc)
  end.

(** [findAndConnectToMadMapper()] called on an existing generator, with the
    port names its output lists at that moment: it throws and changes nothing
    when no name matches, and otherwise calls [openPort] on the output. *)
Definition reconnect (names : list string) (g : MTCGenerator)
  : Completion * MTCGenerator :=
  match findAndConnectToMadMapper names with
  | inl e => (Throw e, g)
  | inr opened => (Normal, set_output (output g ++ opened) g)
  end.

(** What can happen to a generator: a call of one of the methods of the
    class (all of them but the constructor), or the callback of an interval
    coming due. *)
Inductive Call : Type :=
| Start
| Stop
| SetPosition (h m s f : Z)
| SetFrameRate (rate : Q)
| SendFullFrame
| SendQuarterFrame
| Close
| HandleExit
| Fire (id : nat)
| FindAndConnectToMadMapper (names : list string)
| ToBCD (value : Z).

Definition call (c : Call) (g : MTCGenerator) : MTCGenerator :=
  match c with
  | Start => start g
  | Stop => stop g
  | SetPosition h m s f => setPosition h m s f g
  | SetFrameRate rate => snd (setFrameRate rate g)
  | SendFullFrame => sendFullFrame g
  | SendQuarterFrame => sendQuarterFrame g
  | Close => close g
  | HandleExit => handleExit g
  | Fire id => fire id g
  | FindAndConnectToMadMapper names => snd (reconnect names g)
  | ToBCD _ => g
  end.

(** A sequence of calls, first to last. *)
Definition calls (cs : list Call) (g : MTCGenerator) : MTCGenerator :=
  fold_left (fun g c => call c g) cs g.

(** ** Reading the messages back *)

(** The value of a packed BCD byte. *)
Definition decodeBCD (b : Z) : Z := (b / 16) * 10 + b mod 16.

(** The position of a timecode in the day, in frames, at [R] frames per
    second. *)
Definition frameIndex (R : Z) (tc : Z * Z * Z * Z) : Z :=
  let '(h, m, s, f) := tc in
  ((h * 60 + m) * 60 + s) * R + f.

(** The bounds every valid frame rate allows: as [normalized], with frames
    below 30 whatever the rate. *)
Definition looselyBounded (g : MTCGenerator) : Prop :=
  timecodeInRange 30 (timecode g) /\
  0 <= quarterFrame g <= 7 /\
  validRate (frameRate g) = true.

(** The running flag, the held handle and the intervals agree: one active
    interval, the held one, while running, and none while stopped. *)
Definition timersConsistent (g : MTCGenerator) : Prop :=
  (activeCount g = if running g then 1%nat else 0%nat) /\
  (running g = true ->
   exists id : nat, timer g = Some id /\ active id g = true).

(** ** Arithmetic of the JavaScript operators *)

Lemma ToInt32_small (z : Z) :
  - 2 ^ 31 <= z < 2 ^ 31 -> JS.ToInt32 z = z.
Proof.
  intros H. unfold JS.ToInt32.
  rewrite Z.mod_small by lia. lia.
Qed.

Lemma ToInt32_mod16 (z : Z) : JS.ToInt32 z mod 16 = z mod 16.
Proof.
  unfold JS.ToInt32.
  pose proof (Z.div_mod (z + 2 ^ 31) (2 ^ 32) ltac:(lia)) as E.
  replace ((z + 2 ^ 31) mod 2 ^ 32 - 2 ^ 31)
    with (z + (- (2 ^ 28 * ((z + 2 ^ 31) / 2 ^ 32))) * 16) by lia.
  apply Z.mod_add. lia.
Qed.

Lemma ToInt32_div16_mod16 (z : Z) :
  (JS.ToInt32 z / 16) mod 16 = (z / 16) mod 16.
Proof.
  unfold JS.ToInt32.
  pose proof (Z.div_mod (z + 2 ^ 31) (2 ^ 32) ltac:(lia)) as E.
  replace ((z + 2 ^ 31) mod 2 ^ 32 - 2 ^ 31)
    with (z + (- (2 ^ 28 * ((z + 2 ^ 31) / 2 ^ 32))) * 16) by lia.
  rewrite Z.div_add by lia.
  replace (- (2 ^ 28 * ((z + 2 ^ 31) / 2 ^ 32)))
    with ((- (2 ^ 24 * ((z + 2 ^ 31) / 2 ^ 32))) * 16) by lia.
  apply Z.mod_add. lia.
Qed.

Lemma lor_bound (n a b : Z) :
  0 <= n -> 0 <= a < 2 ^ n -> 0 <= b < 2 ^ n -> 0 <= Z.lor a b < 2 ^ n.
Proof.
  intros Hn Ha Hb. split.
  - apply Z.lor_nonneg. lia.
  - destruct (Z.eq_dec a 0) as [Ea | Ea]; [subst a; rewrite Z.lor_0_l; lia |].
    destruct (Z.eq_dec b 0) as [Eb | Eb]; [subst b; rewrite Z.lor_0_r; lia |].
    assert (0 <= Z.lor a b) by (apply Z.lor_nonneg; lia).
    destruct (Z.eq_dec (Z.lor a b) 0) as [E | E]; [lia |].
    apply Z.log2_lt_pow2; [lia |].
    rewrite Z.log2_lor by lia.
    apply Z.max_lub_lt; apply Z.log2_lt_pow2; lia.
Qed.

Lemma land_0x7F (a : Z) : Z.land a 0x7F = a mod 128.
Proof. exact (Z.land_ones a 7 ltac:(lia)). Qed.

Lemma land_0x0F (a : Z) : Z.land a 0x0F = a mod 16.
Proof. exact (Z.land_ones a 4 ltac:(lia)). Qed.

Lemma land_0xF0_shiftr (a : Z) : Z.shiftr (Z.land a 0xF0) 4 = (a / 16) mod 16.
Proof.
  rewrite Z.shiftr_land.
  change (Z.shiftr 0xF0 4) with 0x0F.
  rewrite land_0x0F, Z.shiftr_div_pow2 by lia.
  reflexivity.
Qed.

Lemma land_0xF0_bound (a : Z) : 0 <= Z.land a 0xF0 < 256.
Proof.
  assert (Z.land a 0xF0 = Z.land (Z.land a 0xF0) (Z.ones 8)) as E.
  { rewrite <- Z.land_assoc. reflexivity. }
  rewrite E, Z.land_ones by lia.
  apply Z.mod_pos_bound. lia.
Qed.

(** On the values a timecode field can take, [toBCD] is packed BCD. *)
Lemma toBCD_BCD (v : Z) : 0 <= v < 2 ^ 27 -> toBCD v = BCD v.
Proof.
  intros Hv. unfold toBCD, BCD, JS.band, JS.bor, JS.shl, JS.rem, JS.floor_div.
  assert (0 <= v / 10 < 2 ^ 27)
    by (split; [apply Z.div_pos; lia | apply Z.div_lt_upper_bound; lia]).
  rewrite Z.rem_mod_nonneg by lia.
  pose proof (Z.mod_pos_bound v 10 ltac:(lia)).
  change (4 mod 32) with 4.
  rewrite (ToInt32_small (v / 10)) by lia.
  rewrite Z.shiftl_mul_pow2 by lia.
  rewrite (ToInt32_small (v / 10 * 2 ^ 4)) by lia.
  rewrite (ToInt32_small (v / 10 * 2 ^ 4)) by lia.
  rewrite (ToInt32_small (v mod 10)) by lia.
  pose proof (lor_bound 31 (v / 10 * 2 ^ 4) (v mod 10) ltac:(lia) ltac:(lia) ltac:(lia)).
  rewrite (ToInt32_small (Z.lor _ _)) by lia.
  rewrite (ToInt32_small 0x7F) by lia.
  reflexivity.
Qed.

Lemma toBCD_range (v : Z) : 0 <= toBCD v < 128.
Proof.
  unfold toBCD, JS.band.
  rewrite (ToInt32_small 0x7F) by lia.
  rewrite land_0x7F. apply Z.mod_pos_bound. lia.
Qed.

(** The quarter-frame pieces are nibbles, whatever the fields hold. *)
Lemma band_0x0F (v : Z) : JS.band v 0x0F = lowNibble v.
Proof.
  unfold JS.band, lowNibble.
  rewrite (ToInt32_small 0x0F) by lia.
  rewrite land_0x0F. apply ToInt32_mod16.
Qed.

Lemma sar_band_0xF0 (v : Z) : JS.sar (JS.band v 0xF0) 4 = highNibble v.
Proof.
  unfold JS.sar, JS.band, highNibble.
  rewrite (ToInt32_small 0xF0) by lia.
  pose proof (land_0xF0_bound (JS.ToInt32 v)).
  rewrite (ToInt32_small (Z.land _ _)) by lia.
  change (4 mod 32) with 4.
  rewrite land_0xF0_shiftr. apply ToInt32_div16_mod16.
Qed.

Lemma nibble_range (v : Z) :
  0 <= lowNibble v < 16 /\ 0 <= highNibble v < 16.
Proof.
  unfold lowNibble, highNibble.
  split; apply Z.mod_pos_bound; lia.
Qed.

(** [k << 4 | p] for a cursor [k] and a nibble [p]. *)
Lemma bor_shl4 (k p : Z) :
  0 <= k <= 7 -> 0 <= p < 16 ->
  JS.bor (JS.shl k 4) p = Z.lor (Z.shiftl k 4) p.
Proof.
  intros Hk Hp. unfold JS.bor, JS.shl.
  change (4 mod 32) with 4.
  rewrite (ToInt32_small k) by lia.
  rewrite Z.shiftl_mul_pow2 by lia.
  rewrite !(ToInt32_small (k * 2 ^ 4)) by lia.
  rewrite (ToInt32_small p) by lia.
  reflexivity.
Qed.

(** ** Frame rates *)

Example fullFrame_1_2_3_4 :
  fullFrame (mkGen [] false 30 1 2 3 4 0 None [])
  = [0xF0; 0x7F; 0x7F; 0x01; 0x01; 0x61; 0x02; 0x03; 0x04; 0xF7].
Proof. reflexivity. Qed.

Example interval_by_rate :
  map (fun rate => interval (mkGen [] false rate 0 0 0 0 0 None []))
      [24; 25; 29.97; 30]%Q
  = [10; 10; 8; 8].
Proof. reflexivity. Qed.

Lemma Qeq_bool_compat (x y c : Q) : x == y -> Qeq_bool x c = Qeq_bool y c.
Proof.
  intros E.
  destruct (Qeq_bool y c) eqn:Hy.
  - apply Qeq_bool_iff. apply Qeq_bool_iff in Hy. rewrite E. exact Hy.
  - destruct (Qeq_bool x c) eqn:Hx; [| reflexivity].
    apply Qeq_bool_iff in Hx. rewrite E in Hx.
    apply Qeq_bool_iff in Hx. congruence.
Qed.

Lemma rateCode_rateCodeOf (r : FrameRate) (g : MTCGenerator) :
  frameRate g == rateValue r -> rateCode g = rateCodeOf r.
Proof.
  intros E. unfold rateCode.
  rewrite !(Qeq_bool_compat _ _ _ E).
  destruct r; reflexivity.
Qed.

Lemma validRate_iff (rate : Q) :
  validRate rate = true <-> exists r, rate == rateValue r.
Proof.
  unfold validRate. cbn [existsb]. split.
  - intros H.
    repeat (apply orb_prop in H; destruct H as [H | H]);
      try discriminate; apply Qeq_bool_iff in H.
    + exists Fps24. exact H.
    + exists Fps25. exact H.
    + exists Fps2997. exact H.
    + exists Fps30. exact H.
  - intros [r E].
    rewrite !(Qeq_bool_compat _ _ _ E).
    destruct r; reflexivity.
Qed.

Lemma countRate_rateValue (rate : Q) (r : FrameRate) :
  rate == rateValue r ->
  countRate rate = match r with Fps24 => 24 | Fps25 => 25 | _ => 30 end.
Proof.
  intros E. unfold countRate. rewrite E. destruct r; reflexivity.
Qed.

(** An integer has reached the rate exactly when it has reached the counting
    rate: [frames >= 29.97] is [frames >= 30]. *)
Lemma Qle_bool_countRate (rate : Q) (z : Z) :
  Qle_bool rate (inject_Z z) = (countRate rate <=? z).
Proof.
  unfold countRate.
  destruct (Qceiling rate <=? z) eqn:H.
  - apply Z.leb_le in H. apply Qle_bool_iff.
    apply Qle_trans with (inject_Z (Qceiling rate)).
    + apply Qle_ceiling.
    + rewrite <- Zle_Qle. exact H.
  - apply Z.leb_gt in H.
    destruct (Qle_bool rate (inject_Z z)) eqn:L; [| reflexivity].
    apply Qle_bool_iff in L. apply Qceiling_resp_le in L.
    rewrite Qceiling_Z in L. lia.
Qed.

(** ** Full-frame messages *)

(** C1.  On a timecode within the bounds of the data model (hours 0..23,
    minutes and seconds 0..59, frames below the counting rate) and a frame
    rate among 24, 25, 29.97 and 30, [sendFullFrame] sends exactly one
    message, the 10 bytes F0 7F 7F 01 01 hh mm ss ff F7 with
    hh = BCD(hours) | (rateCode << 5) and the other three plain BCD, and
    changes nothing else; at 01:02:03:04 and 30 frames per second the bytes
    are F0 7F 7F 01 01 61 02 03 04 F7. *)
Theorem sendFullFrame_bytes (r : FrameRate) (g : MTCGenerator) :
  frameRate g == rateValue r ->
  0 <= hours g <= 23 ->
  0 <= minutes g <= 59 ->
  0 <= seconds g <= 59 ->
  0 <= frames g < countRate (frameRate g) ->
  sendFullFrame g =
    set_output
      (output g ++
       [SendMessage
          [ 0xF0; 0x7F; 0x7F; 0x01; 0x01;
            Z.lor (BCD (hours g)) (Z.shiftl (rateCodeOf r) 5);
            BCD (minutes g); BCD (seconds g); BCD (frames g);
            0xF7 ]]) g
  /\ (hours g = 1 -> minutes g = 2 -> seconds g = 3 -> frames g = 4 ->
      r = Fps30 ->
      output (sendFullFrame g) =
        output g ++
        [SendMessage [0xF0; 0x7F; 0x7F; 0x01; 0x01; 0x61; 0x02; 0x03; 0x04; 0xF7]]).
Proof.
  intros Hr Hh Hm Hs Hf.
  assert (frames g < 2 ^ 27) as Hf'.
  { rewrite (countRate_rateValue _ _ Hr) in Hf. destruct r; lia. }
  assert (fullFrame g =
          [ 0xF0; 0x7F; 0x7F; 0x01; 0x01;
            Z.lor (BCD (hours g)) (Z.shiftl (rateCodeOf r) 5);
            BCD (minutes g); BCD (seconds g); BCD (frames g); 0xF7 ]) as E.
  { unfold fullFrame.
    rewrite (rateCode_rateCodeOf r g Hr).
    rewrite <- !toBCD_BCD by lia.
    do 5 f_equal.
    unfold JS.bor.
    pose proof (toBCD_range (hours g)).
    rewrite (ToInt32_small (toBCD (hours g))) by lia.
    destruct r; reflexivity. }
  split.
  - unfold sendFullFrame, sendMessage. rewrite E. reflexivity.
  - intros H1 H2 H3 H4 H5.
    unfold sendFullFrame, sendMessage. cbn [output set_output].
    rewrite E, H1, H2, H3, H4, H5. reflexivity.
Qed.

Lemma sendFullFrame_bytes_witness :
  output (sendFullFrame (mkGen [] true 29.97 23 59 59 29 0 None [])) =
    [SendMessage [0xF0; 0x7F; 0x7F; 0x01; 0x01; 0x63; 0x59; 0x59; 0x29; 0xF7]].
Proof.
  pose proof (sendFullFrame_bytes Fps2997 (mkGen [] true 29.97 23 59 59 29 0 None []))
    as H.
  cbn [frameRate hours minutes seconds frames rateValue] in H.
  destruct H as [H _]; [reflexivity | lia | lia | lia | | ].
  - unfold countRate. change (Qceiling 29.97) with 30. lia.
  - rewrite H. reflexivity.
Defined.

(** ** Quarter-frame messages *)

Lemma pieces_nibble (g : MTCGenerator) (k : Z) :
  0 <= k <= 7 -> JS.index (pieces g) k = Some (nibble g k).
Proof.
  intros Hk. unfold pieces.
  rewrite !band_0x0F, !sar_band_0xF0.
  assert (k = 0 \/ k = 1 \/ k = 2 \/ k = 3 \/ k = 4 \/ k = 5 \/ k = 6 \/ k = 7)
    as C by lia.
  repeat (destruct C as [C | C]; [subst k; reflexivity |]).
  subst k. reflexivity.
Qed.

Lemma nibble_bound (g : MTCGenerator) (k : Z) : 0 <= nibble g k < 16.
Proof.
  unfold nibble.
  pose proof (nibble_range (frames g)). pose proof (nibble_range (seconds g)).
  pose proof (nibble_range (minutes g)). pose proof (nibble_range (hours g)).
  destruct k as [| p | p]; try lia.
  do 3 (destruct p as [p | p |]; try lia).
Qed.

Lemma advanceFrame_frame (g : MTCGenerator) :
  output (advanceFrame g) = output g /\
  running (advanceFrame g) = running g /\
  frameRate (advanceFrame g) = frameRate g /\
  quarterFrame (advanceFrame g) = quarterFrame g /\
  timer (advanceFrame g) = timer g /\
  intervals (advanceFrame g) = intervals g.
Proof.
  unfold advanceFrame.
  cbn [set_frames set_seconds set_minutes set_hours
       output running frameRate hours minutes seconds frames quarterFrame
       timer intervals].
  repeat match goal with
         | |- context [if ?c then _ else _] => destruct c
         end;
    cbn [output running frameRate quarterFrame timer intervals];
    repeat split.
Qed.

Lemma sendQuarterFrame_output (g : MTCGenerator) :
  output (sendQuarterFrame g) = output g ++ [SendMessage (quarterFrameMessage g)].
Proof.
  unfold sendQuarterFrame.
  destruct (quarterFrame _ =? 0).
  - rewrite (proj1 (advanceFrame_frame _)). reflexivity.
  - reflexivity.
Qed.

(** C2.  With the cursor at [k] in 0..7, [sendQuarterFrame] sends exactly one
    message, the two bytes F1 and [(k << 4) | nibble(k)], where the nibbles
    for k = 0..7 are frames low, frames high, seconds low, seconds high,
    minutes low, minutes high, hours low and hours high, all binary; the
    message does not depend on the frame rate, so piece 7 carries no
    rate-code bits. *)
Theorem sendQuarterFrame_bytes (g : MTCGenerator) :
  0 <= quarterFrame g <= 7 ->
  output (sendQuarterFrame g) =
    output g ++
    [SendMessage
       [0xF1; Z.lor (Z.shiftl (quarterFrame g) 4) (nibble g (quarterFrame g))]]
  /\ (forall rate : Q,
        quarterFrameMessage (set_frameRate rate g) = quarterFrameMessage g)
  /\ (quarterFrame g = 7 ->
      quarterFrameMessage g = [0xF1; Z.lor 0x70 ((hours g / 16) mod 16)]).
Proof.
  intros Hk.
  assert (quarterFrameMessage g =
          [0xF1; Z.lor (Z.shiftl (quarterFrame g) 4) (nibble g (quarterFrame g))])
    as E.
  { unfold quarterFrameMessage.
    rewrite (pieces_nibble g _ Hk). cbn [JS.of_undefined].
    rewrite bor_shl4 by (try assumption; apply nibble_bound).
    reflexivity. }
  split; [| split].
  - rewrite sendQuarterFrame_output, E. reflexivity.
  - intros rate. reflexivity.
  - intros H7. rewrite E, H7. reflexivity.
Qed.

Lemma sendQuarterFrame_bytes_witness :
  output (sendQuarterFrame (mkGen [] true 30 23 59 58 29 7 None [])) =
    [SendMessage [0xF1; 0x71]].
Proof.
  pose proof (sendQuarterFrame_bytes (mkGen [] true 30 23 59 58 29 7 None []))
    as H.
  cbn [quarterFrame] in H.
  destruct H as [H _]; [lia |].
  rewrite H. reflexivity.
Defined.

(** ** The quarter-frame cycle *)

Lemma sendQuarterFrame_quarterFrame (g : MTCGenerator) :
  quarterFrame (sendQuarterFrame g) = JS.rem (quarterFrame g + 1) 8.
Proof.
  unfold sendQuarterFrame.
  destruct (quarterFrame _ =? 0).
  - rewrite (proj1 (proj2 (proj2 (proj2 (advanceFrame_frame _))))). reflexivity.
  - reflexivity.
Qed.

Lemma sendQuarterFrame_frameRate (g : MTCGenerator) :
  frameRate (sendQuarterFrame g) = frameRate g.
Proof.
  unfold sendQuarterFrame.
  destruct (quarterFrame _ =? 0).
  - rewrite (proj1 (proj2 (proj2 (advanceFrame_frame _)))). reflexivity.
  - reflexivity.
Qed.

(** The timecode update, as a cascade of comparisons on integers. *)
Lemma advanceFrame_timecode (g : MTCGenerator) :
  timecode (advanceFrame g) =
    if countRate (frameRate g) <=? frames g + 1 then
      if 60 <=? seconds g + 1 then
        if 60 <=? minutes g + 1 then
          if 24 <=? hours g + 1 then (0, 0, 0, 0)
          else (hours g + 1, 0, 0, 0)
        else (hours g, minutes g + 1, 0, 0)
      else (hours g, minutes g, seconds g + 1, 0)
    else (hours g, minutes g, seconds g, frames g + 1).
Proof.
  unfold advanceFrame.
  cbn [set_frames set_seconds set_minutes set_hours
       output running frameRate hours minutes seconds frames quarterFrame
       timer intervals].
  rewrite Qle_bool_countRate.
  repeat match goal with
         | |- context [if ?c then _ else _] => destruct c
         end;
    reflexivity.
Qed.

(** Within the bounds of the data model the update is [nextTimecode]. *)
Lemma advanceFrame_nextTimecode (g : MTCGenerator) :
  timecodeInRange (countRate (frameRate g)) (timecode g) ->
  timecode (advanceFrame g) =
    nextTimecode (countRate (frameRate g)) (timecode g).
Proof.
  unfold timecodeInRange, timecode at 1.
  intros (Hh & Hm & Hs & Hf).
  rewrite advanceFrame_timecode.
  unfold nextTimecode, timecode. cbv zeta.
  repeat match goal with
         | |- context [?a <=? ?b] =>
             destruct (Z.leb_spec a b)
         | |- context [?a =? ?b] =>
             destruct (Z.eqb_spec a b)
         end;
    try reflexivity; lia.
Qed.

Lemma sendQuarterFrame_timecode_same (g : MTCGenerator) :
  0 <= quarterFrame g < 7 ->
  timecode (sendQuarterFrame g) = timecode g.
Proof.
  intros Hk. unfold sendQuarterFrame.
  cbn [quarterFrame set_quarterFrame sendMessage set_output].
  unfold JS.rem. rewrite Z.rem_small by lia.
  destruct (Z.eqb_spec (quarterFrame g + 1) 0); [lia |].
  reflexivity.
Qed.

Lemma sendQuarterFrame_timecode_wrap (g : MTCGenerator) :
  quarterFrame g = 7 ->
  timecode (sendQuarterFrame g) = timecode (advanceFrame g).
Proof.
  intros Hk. unfold sendQuarterFrame.
  cbn [quarterFrame set_quarterFrame sendMessage set_output].
  rewrite Hk. change (JS.rem (7 + 1) 8) with 0. cbn [Z.eqb].
  rewrite !advanceFrame_timecode. reflexivity.
Qed.

Lemma ticks_S (n : nat) (g : MTCGenerator) :
  ticks (S n) g = sendQuarterFrame (ticks n g).
Proof. reflexivity. Qed.

(** Below the end of the cycle a tick moves the cursor only. *)
Lemma ticks_within_cycle (n : nat) (g : MTCGenerator) :
  0 <= quarterFrame g ->
  quarterFrame g + Z.of_nat n <= 7 ->
  quarterFrame (ticks n g) = quarterFrame g + Z.of_nat n /\
  timecode (ticks n g) = timecode g /\
  frameRate (ticks n g) = frameRate g.
Proof.
  intros H0. induction n as [| n IH]; intros Hn.
  - change (ticks 0 g) with g. cbn [Z.of_nat]. repeat split. lia.
  - destruct IH as (Iq & It & Ir); [lia |].
    rewrite ticks_S. repeat split.
    + rewrite sendQuarterFrame_quarterFrame, Iq.
      unfold JS.rem. rewrite Z.rem_small by lia. lia.
    + rewrite sendQuarterFrame_timecode_same by lia. exact It.
    + rewrite sendQuarterFrame_frameRate. exact Ir.
Qed.

Lemma timecode_advanceFrame_ext (g g' : MTCGenerator) :
  timecode g = timecode g' -> frameRate g = frameRate g' ->
  timecode (advanceFrame g) = timecode (advanceFrame g').
Proof.
  intros Et Er.
  rewrite !advanceFrame_timecode.
  unfold timecode in Et. injection Et as -> -> -> ->. rewrite Er. reflexivity.
Qed.

(** C3.  From cursor 0, in every state, eight consecutive ticks take the
    cursor through 0, 1, ..., 7 and back to 0; the timecode is untouched by
    the first seven and advanced by the eighth, by exactly one frame: frames
    is incremented, and on reaching the frame rate (29.97 counting as 30) it
    is reset to 0 and the carry runs through seconds, minutes and hours, which
    wrap at 60, 60 and 24.  Within the bounds of the data model "reaching" is
    "being equal to"; from 23:59:59 at the last frame of the second the
    result is 00:00:00:00. *)
Theorem eight_ticks_advance_one_frame (g : MTCGenerator) :
  quarterFrame g = 0 ->
  map (fun n => quarterFrame (ticks n g)) (seq 0 9) = [0; 1; 2; 3; 4; 5; 6; 7; 0]
  /\ (forall n : nat, (n < 8)%nat -> timecode (ticks n g) = timecode g)
  /\ timecode (ticks 8 g) =
       advancedTimecode (countRate (frameRate g)) (timecode g)
  /\ (timecodeInRange (countRate (frameRate g)) (timecode g) ->
      timecode (ticks 8 g) = nextTimecode (countRate (frameRate g)) (timecode g))
  /\ (timecode g = (23, 59, 59, countRate (frameRate g) - 1) ->
      timecode (ticks 8 g) = (0, 0, 0, 0))
  /\ timecode (ticks 8 g) <> timecode g.
Proof.
  intros H0.
  assert (forall n : nat, (n < 8)%nat ->
            quarterFrame (ticks n g) = Z.of_nat n /\
            timecode (ticks n g) = timecode g /\
            frameRate (ticks n g) = frameRate g) as W.
  { intros n Hn.
    destruct (ticks_within_cycle n g) as (Iq & It & Ir); try lia.
    repeat split; try assumption. lia. }
  destruct (W 7%nat ltac:(lia)) as (Q7 & T7 & R7).
  assert (timecode (ticks 8 g) = timecode (advanceFrame g)) as A.
  { rewrite ticks_S, sendQuarterFrame_timecode_wrap by exact Q7.
    apply timecode_advanceFrame_ext; assumption. }
  split; [| split; [| split; [| split; [| split]]]].
  - assert (quarterFrame (ticks 8 g) = 0) as Q8.
    { rewrite ticks_S, sendQuarterFrame_quarterFrame, Q7. reflexivity. }
    cbn [map seq].
    repeat match goal with
           | |- _ :: _ = _ :: _ => f_equal
           end;
      first [ exact H0 | exact Q8
            | match goal with
              | |- quarterFrame (ticks ?n g) = _ => exact (proj1 (W n ltac:(lia)))
              end ].
  - intros n Hn. apply (W n Hn).
  - rewrite A. apply advanceFrame_timecode.
  - intros Hr. rewrite A. apply advanceFrame_nextTimecode. exact Hr.
  - intros Ht. rewrite A, advanceFrame_timecode.
    unfold timecode in Ht. injection Ht as -> -> -> ->.
    destruct (Z.leb_spec (countRate (frameRate g)) (countRate (frameRate g) - 1 + 1));
      [reflexivity | lia].
  - rewrite A, advanceFrame_timecode. unfold timecode.
    repeat match goal with
           | |- context [?a <=? ?b] => destruct (Z.leb_spec a b)
           end;
      intros E; injection E; lia.
Qed.

Lemma eight_ticks_advance_one_frame_witness :
  quarterFrame (mkGen [] true 29.97 23 59 59 29 0 None []) = 0 /\
  timecode (ticks 8 (mkGen [] true 29.97 23 59 59 29 0 None [])) = (0, 0, 0, 0) /\
  quarterFrame (mkGen [] true 24 0 0 0 29 0 None []) = 0 /\
  timecode (ticks 8 (mkGen [] true 24 0 0 0 29 0 None [])) = (0, 0, 1, 0).
Proof.
  split; [reflexivity |]. split.
  - destruct (eight_ticks_advance_one_frame
                (mkGen [] true 29.97 23 59 59 29 0 None []) eq_refl)
      as (_ & _ & _ & _ & M & _).
    apply M. reflexivity.
  - split; [reflexivity |].
    destruct (eight_ticks_advance_one_frame
                (mkGen [] true 24 0 0 0 29 0 None []) eq_refl)
      as (_ & _ & E & _).
    rewrite E. reflexivity.
Defined.

(** ** The normalization invariant *)

Lemma nextTimecode_inRange (R : Z) (tc : Z * Z * Z * Z) :
  timecodeInRange R tc -> timecodeInRange R (nextTimecode R tc).
Proof.
  destruct tc as [[[h m] s] f]. unfold timecodeInRange, nextTimecode.
  intros (Hh & Hm & Hs & Hf). cbv zeta.
  repeat match goal with
         | |- context [?a =? ?b] => destruct (Z.eqb_spec a b)
         end;
    lia.
Qed.









(** ** Starting and stopping *)

Lemma activeCount_setInterval (delay : Z) (g : MTCGenerator) :
  activeCount (snd (setInterval delay g)) = S (activeCount g).
Proof.
  unfold activeCount, setInterval. cbn [snd set_intervals intervals].
  rewrite filter_app, length_app. cbn. lia.
Qed.

Lemma start_running (g : MTCGenerator) :
  running g = true -> start g = g.
Proof. intros H. unfold start. rewrite H. reflexivity. Qed.

Lemma start_stopped (g : MTCGenerator) :
  running g = false ->
  start g =
    mkGen (output g ++ [SendMessage (fullFrame g)]) true (frameRate g)
          (hours g) (minutes g) (seconds g) (frames g) (quarterFrame g)
          (Some (List.length (intervals g)))
          (intervals g ++ [(Qfloor (1000 / (frameRate g * 4)), true)]).
Proof. intros H. unfold start. rewrite H. reflexivity. Qed.

Lemma interval_rateValue (rate : Q) (r : FrameRate) :
  rate == rateValue r ->
  Qfloor (1000 / (rate * 4)) =
    match r with Fps24 | Fps25 => 10 | Fps2997 | Fps30 => 8 end.
Proof.
  intros E. rewrite E. destruct r; reflexivity.
Qed.



(** ** Repositioning *)

(** C6.  [setPosition(h, m, s, f)] overwrites the timecode with (h, m, s, f)
    and resets the cursor to 0 whatever it was; when the session is running
    it sends exactly one message, the full-frame message of the new position,
    and when it is stopped it sends nothing; the frame rate, the running flag
    and the intervals are untouched. *)
Theorem setPosition_resync (h m s f : Z) (g : MTCGenerator) :
  timecode (setPosition h m s f g) = (h, m, s, f)
  /\ quarterFrame (setPosition h m s f g) = 0
  /\ output (setPosition h m s f g) =
       output g ++
       (if running g then
          [SendMessage
             [ 0xF0; 0x7F; 0x7F; 0x01; 0x01;
               JS.bor (toBCD h) (JS.shl (rateCode g) 5);
               toBCD m; toBCD s; toBCD f; 0xF7 ]]
        else [])
  /\ running (setPosition h m s f g) = running g
  /\ frameRate (setPosition h m s f g) = frameRate g
  /\ timer (setPosition h m s f g) = timer g
  /\ intervals (setPosition h m s f g) = intervals g.
Proof.
  unfold setPosition.
  cbn [running set_hours set_minutes set_seconds set_frames set_quarterFrame].
  destruct (running g) eqn:R.
  - repeat split; try exact R.
  - cbn [output]. rewrite app_nil_r. repeat split; try exact R.
Qed.

(** ** Stopping *)

Lemma nth_error_deactivate_same (id : nat) (l : list (Z * bool)) :
  match nth_error (deactivate id l) id with
  | Some (_, a) => a
  | None => false
  end = false.
Proof.
  revert id. induction l as [| [d a] l IH]; intros [| id]; cbn;
    try reflexivity.
  apply IH.
Qed.

Lemma nth_error_deactivate_other (id id' : nat) (l : list (Z * bool)) :
  id' <> id -> nth_error (deactivate id l) id' = nth_error l id'.
Proof.
  revert id id'. induction l as [| [d a] l IH]; intros [| id] [| id'] H; cbn;
    try reflexivity; try congruence.
  apply IH. congruence.
Qed.

Lemma deactivate_last (l : list (Z * bool)) (d : Z) :
  deactivate (List.length l) (l ++ [(d, true)]) = l ++ [(d, false)].
Proof.
  induction l as [| [d' a] l IH]; cbn; [reflexivity |].
  rewrite IH. reflexivity.
Qed.

Lemma stop_stopped (g : MTCGenerator) :
  running g = false -> stop g = g.
Proof. intros H. unfold stop. rewrite H. reflexivity. Qed.

Lemma stop_running (g : MTCGenerator) :
  running g = true ->
  stop g = clearInterval (timer g) (set_running false g).
Proof. intros H. unfold stop. rewrite H. reflexivity. Qed.

Lemma stop_frame (g : MTCGenerator) :
  running (stop g) = false /\
  output (stop g) = output g /\
  frameRate (stop g) = frameRate g /\
  timecode (stop g) = timecode g /\
  quarterFrame (stop g) = quarterFrame g /\
  timer (stop g) = timer g.
Proof.
  unfold stop, clearInterval.
  destruct (running g) eqn:R; cbn [negb].
  - cbn [timer set_running]. destruct (timer g) eqn:T; repeat split; exact T.
  - rewrite R. repeat split.
Qed.

(** C7.  [stop] does nothing on a stopped session and is therefore
    idempotent; on a running session it clears the interval whose handle the
    session holds, so that its callback no longer runs, and marks the session
    stopped; it sends nothing and leaves hours, minutes, seconds, frames, the
    cursor and the frame rate as they were.  A [start] after it sends a fresh
    full-frame message of the timecode held before and keeps that
    timecode. *)
Theorem stop_keeps_position (g : MTCGenerator) :
  (running g = false -> stop g = g)
  /\ stop (stop g) = stop g
  /\ running (stop g) = false
  /\ output (stop g) = output g
  /\ timecode (stop g) = timecode g
  /\ quarterFrame (stop g) = quarterFrame g
  /\ frameRate (stop g) = frameRate g
  /\ (forall id : nat,
        running g = true -> timer g = Some id ->
        active id (stop g) = false /\
        fire id (stop g) = stop g /\
        (forall id' : nat, id' <> id -> active id' (stop g) = active id' g))
  /\ (running g = false ->
      intervals (stop (start g)) =
        intervals g ++ [(Qfloor (1000 / (frameRate g * 4)), false)] /\
      activeCount (stop (start g)) = activeCount g)
  /\ timecode (start (stop g)) = timecode g
  /\ quarterFrame (start (stop g)) = quarterFrame g
  /\ running (start (stop g)) = true
  /\ output (start (stop g)) = output g ++ [SendMessage (fullFrame g)].
Proof.
  destruct (stop_frame g) as (Sr & So & Sf & St & Sq & Sh).
  assert (fullFrame (stop g) = fullFrame g) as F.
  { unfold fullFrame, rateCode. unfold timecode in St.
    injection St as -> -> -> ->. rewrite Sf. reflexivity. }
  pose proof (start_stopped (stop g) Sr) as E.
  repeat (split; [first [ exact (stop_stopped g) | exact (stop_stopped _ Sr)
                        | assumption ] |]).
  split.
  { intros id R T.
    assert (active id (stop g) = false) as A.
    { rewrite (stop_running g R), T. unfold active, clearInterval.
      cbn [intervals set_intervals set_running].
      apply nth_error_deactivate_same. }
    split; [exact A |]. split.
    - unfold fire. rewrite A. reflexivity.
    - intros id' N. rewrite (stop_running g R), T. unfold active, clearInterval.
      cbn [intervals set_intervals set_running].
      rewrite nth_error_deactivate_other by exact N. reflexivity. }
  split.
  { intros R. rewrite (start_stopped g R).
    unfold stop, clearInterval.
    cbn [running negb timer set_running intervals set_intervals].
    rewrite deactivate_last. split; [reflexivity |].
    unfold activeCount. cbn [intervals set_intervals].
    rewrite filter_app, length_app. cbn. lia. }
  rewrite E. cbn [output running quarterFrame]. unfold timecode at 1.
  cbn [hours minutes seconds frames].
  rewrite So, F. repeat split; assumption.
Qed.

(** ** Changing the frame rate *)

(** C8.  [setFrameRate(rate)] returns normally exactly when [rate] is 24, 25,
    29.97 or 30, and then sets the frame rate to [rate] and changes nothing
    else; on any other rate it throws the invalid-frame-rate error and leaves
    the whole state, frame rate included, as it was.  In particular 29.97 is
    accepted and 28 is rejected. *)
Theorem setFrameRate_validates (rate : Q) (g : MTCGenerator) :
  ((rate == 24 \/ rate == 25 \/ rate == 29.97 \/ rate == 30)%Q ->
   setFrameRate rate g =
     (Normal,
      mkGen (output g) (running g) rate (hours g) (minutes g) (seconds g)
            (frames g) (quarterFrame g) (timer g) (intervals g)))
  /\ (~ (rate == 24 \/ rate == 25 \/ rate == 29.97 \/ rate == 30)%Q ->
      setFrameRate rate g = (Throw InvalidFrameRate, g))
  /\ (fst (setFrameRate rate g) = Normal <->
      (rate == 24 \/ rate == 25 \/ rate == 29.97 \/ rate == 30)%Q)
  /\ setFrameRate 29.97 g =
       (Normal,
        mkGen (output g) (running g) 29.97 (hours g) (minutes g) (seconds g)
              (frames g) (quarterFrame g) (timer g) (intervals g))
  /\ setFrameRate 28 g = (Throw InvalidFrameRate, g).
Proof.
  assert (validRate rate = true <->
          (rate == 24 \/ rate == 25 \/ rate == 29.97 \/ rate == 30)%Q) as V.
  { unfold validRate. cbn [existsb].
    rewrite !orb_true_iff, !Qeq_bool_iff. intuition discriminate. }
  unfold setFrameRate.
  destruct (validRate rate) eqn:B; cbn [negb fst].
  - repeat split; try reflexivity; intros H.
    + exfalso. apply H. apply V. reflexivity.
    + apply V. reflexivity.
  - repeat split; try reflexivity; intros H.
    + apply V in H. discriminate.
    + discriminate.
    + apply V in H. discriminate.
Qed.

(** ** Closing *)

Lemma closeCalls_closePort (g : MTCGenerator) :
  closeCalls (closePort g) = S (closeCalls g).
Proof.
  unfold closeCalls, closePort. cbn [output set_output].
  rewrite filter_app, length_app. cbn. lia.
Qed.

Lemma close_output (g : MTCGenerator) :
  output (close g) = output g ++ [ClosePort].
Proof.
  unfold close, closePort. cbn [output set_output].
  rewrite (proj1 (proj2 (stop_frame g))). reflexivity.
Qed.

Lemma close_running (g : MTCGenerator) : running (close g) = false.
Proof.
  unfold close, closePort. cbn [running set_output].
  exact (proj1 (stop_frame g)).
Qed.

Lemma closes_output (n : nat) (g : MTCGenerator) :
  output (Nat.iter n close g) = output g ++ repeat ClosePort n.
Proof.
  induction n as [| n IH].
  - cbn. rewrite app_nil_r. reflexivity.
  - change (Nat.iter (S n) close g) with (close (Nat.iter n close g)).
    rewrite close_output, IH, <- app_assoc.
    f_equal. change [ClosePort] with (repeat ClosePort 1).
    rewrite <- repeat_app. f_equal. lia.
Qed.

(** C9, as the code has it.  [close] stops the session and then calls
    [closePort] on the output, on every call: it leaves the session stopped,
    the interval the session held cleared and the timecode, cursor and frame
    rate untouched, and [n] consecutive calls make [n] calls of [closePort].
    After the first call a further [close] changes nothing but the record of
    calls made on the output. *)
Theorem close_calls_closePort (n : nat) (g : MTCGenerator) :
  close g = set_output (output g ++ [ClosePort]) (stop g)
  /\ running (close g) = false
  /\ (forall id : nat,
        running g = true -> timer g = Some id -> active id (close g) = false)
  /\ output (Nat.iter n close g) = output g ++ repeat ClosePort n
  /\ closeCalls (Nat.iter n close g) = (closeCalls g + n)%nat
  /\ close (close g) = set_output (output g ++ [ClosePort; ClosePort]) (close g).
Proof.
  assert (close g = set_output (output g ++ [ClosePort]) (stop g)) as E.
  { unfold close, closePort. rewrite (proj1 (proj2 (stop_frame g))). reflexivity. }
  split; [exact E |].
  split; [apply close_running |].
  split.
  { intros id R T. rewrite E. unfold active. cbn [intervals set_output].
    rewrite (stop_running g R), T. unfold clearInterval.
    cbn [intervals set_intervals set_running].
    apply nth_error_deactivate_same. }
  split; [apply closes_output |].
  split.
  { unfold closeCalls. rewrite closes_output, filter_app, length_app.
    f_equal. induction n as [| n IH]; cbn; [reflexivity | rewrite IH; reflexivity]. }
  unfold close at 1. rewrite (stop_stopped (close g) (close_running g)).
  unfold closePort. rewrite close_output, <- app_assoc. reflexivity.
Qed.

(** C9, as stated, fails: the output is asked to close its port once per
    [close], so two calls on a started session make two [closePort] calls,
    not one. *)
Lemma close_twice_closes_twice :
  closeCalls (close (close (start (mkGen [OpenPort 0] false 30 0 0 0 0 0 None []))))
    = 2%nat
  /\ closeCalls (close (close (start (mkGen [OpenPort 0] false 30 0 0 0 0 0 None []))))
     <> 1%nat.
Proof.
  split; [reflexivity | discriminate].
Qed.

(** ** Construction *)

Lemma scanPorts_none (names : list string) (i found : Z) :
  existsb (JS.includes "MadMapper In") names = false ->
  scanPorts names i found = found.
Proof.
  revert i found. induction names as [| name rest IH]; intros i found H.
  - reflexivity.
  - cbn [existsb] in H. apply orb_false_iff in H. destruct H as [H1 H2].
    cbn [scanPorts]. rewrite H1. apply IH. exact H2.
Qed.

(** The loop ends on the index of the last port whose name matches. *)
Lemma scanPorts_some (names : list string) (i found : Z) :
  existsb (JS.includes "MadMapper In") names = true ->
  exists (k : nat) (name : string),
    nth_error names k = Some name /\
    JS.includes "MadMapper In" name = true /\
    scanPorts names i found = i + Z.of_nat k.
Proof.
  revert i found. induction names as [| name rest IH]; intros i found H.
  - discriminate.
  - cbn [scanPorts].
    destruct (existsb (JS.includes "MadMapper In") rest) eqn:R.
    + destruct (IH (i + 1)
                   (if JS.includes "MadMapper In" name then i else found)
                   eq_refl) as (k & name' & Hn & Hi & Hs).
      exists (S k), name'. repeat split; try assumption.
      rewrite Hs. lia.
    + cbn [existsb] in H. rewrite R, orb_false_r in H.
      exists 0%nat, name. repeat split; try assumption.
      rewrite H, (scanPorts_none rest _ _ R). cbn. lia.
Qed.

(** C10.  When some port name contains "MadMapper In" the constructor opens
    such a port and yields a stopped generator with frame rate 30, timecode
    00:00:00:00, cursor 0 and no interval; when none does it throws and no
    generator exists. *)
Theorem construct_initial (names : list string) :
  ((exists name : string,
      In name names /\ JS.includes "MadMapper In" name = true) ->
   exists (port : nat) (name : string),
     nth_error names port = Some name /\
     JS.includes "MadMapper In" name = true /\
     construct names =
       inr (mkGen [OpenPort (Z.of_nat port)] false 30 0 0 0 0 0 None []))
  /\ ((forall name : string,
         In name names -> JS.includes "MadMapper In" name = false) ->
      construct names = inl PortNotFound).
Proof.
  split.
  - intros H.
    assert (existsb (JS.includes "MadMapper In") names = true) as B
      by (apply existsb_exists; exact H).
    destruct (scanPorts_some names 0 (-1) B) as (k & name & Hn & Hi & Hs).
    exists k, name. repeat split; try assumption.
    unfold construct, findAndConnectToMadMapper. rewrite Hs.
    destruct (Z.eqb_spec (0 + Z.of_nat k) (-1)) as [C | C]; [lia |].
    reflexivity.
  - intros H.
    assert (existsb (JS.includes "MadMapper In") names = false) as B.
    { destruct (existsb _ names) eqn:B; [| reflexivity].
      apply existsb_exists in B. destruct B as (name & Hin & Hi).
      rewrite (H name Hin) in Hi. discriminate. }
    unfold construct, findAndConnectToMadMapper.
    rewrite (scanPorts_none names 0 (-1) B). reflexivity.
Qed.

Lemma construct_initial_witness :
  exists (port : nat) (name : string),
    nth_error ["IAC Driver Bus 1"; "MadMapper In"] port = Some name /\
    JS.includes "MadMapper In" name = true /\
    construct ["IAC Driver Bus 1"; "MadMapper In"] =
      inr (mkGen [OpenPort (Z.of_nat port)] false 30 0 0 0 0 0 None []).
Proof.
  apply (proj1 (construct_initial ["IAC Driver Bus 1"; "MadMapper In"])).
  exists "MadMapper In". split; [right; left; reflexivity | reflexivity].
Defined.

(** * Further properties of the code *)

(** ** Exhaustive checks on a bounded range *)

Lemma forallb_below (P : Z -> bool) (n : nat) :
  forallb P (map Z.of_nat (seq 0 n)) = true ->
  forall v : Z, 0 <= v < Z.of_nat n -> P v = true.
Proof.
  intros H v Hv.
  rewrite forallb_forall in H. apply H.
  apply in_map_iff. exists (Z.to_nat v). split; [lia |].
  apply in_seq. lia.
Qed.

(** ** BCD bytes *)

Lemma rateCode_range (g : MTCGenerator) :
  rateCode g = 0 \/ rateCode g = 1 \/ rateCode g = 2 \/ rateCode g = 3.
Proof.
  unfold rateCode.
  repeat match goal with
         | |- context [if ?c then _ else _] => destruct c
         end; auto.
Qed.

Lemma hoursByte_range (h rc : Z) :
  rc = 0 \/ rc = 1 \/ rc = 2 \/ rc = 3 ->
  0 <= JS.bor (toBCD h) (JS.shl rc 5) < 128.
Proof.
  intros Hrc. unfold JS.bor.
  pose proof (toBCD_range h) as Hb.
  rewrite (ToInt32_small (toBCD h)) by lia.
  assert (0 <= JS.ToInt32 (JS.shl rc 5) < 2 ^ 7) as Hs
    by (destruct Hrc as [-> | [-> | [-> | ->]]]; vm_compute; split; congruence).
  apply (lor_bound 7); lia.
Qed.

(** X1.  Whatever the fields hold, the full-frame message is ten bytes, F0
    first and F7 last, and the eight bytes between them are below 0x80: no
    status byte ever appears inside the SysEx message. *)
Theorem fullFrame_data_bytes_7bit (g : MTCGenerator) :
  exists hh mm ss ff : Z,
    fullFrame g = [0xF0; 0x7F; 0x7F; 0x01; 0x01; hh; mm; ss; ff; 0xF7] /\
    0 <= hh < 128 /\ 0 <= mm < 128 /\ 0 <= ss < 128 /\ 0 <= ff < 128.
Proof.
  exists (JS.bor (toBCD (hours g)) (JS.shl (rateCode g) 5)),
    (toBCD (minutes g)), (toBCD (seconds g)), (toBCD (frames g)).
  split; [reflexivity |].
  split; [apply hoursByte_range, rateCode_range |].
  repeat split; apply toBCD_range.
Qed.

(** X2.  [toBCD] can be read back on 0..79: the tens digit is the high
    nibble and the units digit the low nibble.  From 80 to 99 the mask 0x7F
    drops the top bit of the tens digit, so the byte is that of the value
    minus 80. *)
Theorem toBCD_decode (v : Z) :
  (0 <= v < 80 -> decodeBCD (toBCD v) = v)
  /\ (80 <= v < 100 -> toBCD v = toBCD (v - 80)).
Proof.
  split; intros Hv.
  - apply Z.eqb_eq.
    apply (forallb_below (fun v => decodeBCD (toBCD v) =? v) 80);
      [vm_compute; reflexivity | lia].
  - pose proof (forallb_below
                  (fun v => (v <? 80) || (toBCD v =? toBCD (v - 80))) 100
                  ltac:(vm_compute; reflexivity) v ltac:(lia)) as H.
    cbv beta in H.
    destruct (Z.ltb_spec v 80); [lia |].
    apply Z.eqb_eq. exact H.
Qed.

Lemma toBCD_decode_below_80 (v : Z) :
  0 <= v < 80 -> decodeBCD (toBCD v) = v.
Proof.
  intros Hv. apply Z.eqb_eq.
  apply (forallb_below (fun v => decodeBCD (toBCD v) =? v) 80);
    [vm_compute; reflexivity | lia].
Qed.

Lemma hoursByte_decode (c h : Z) :
  c = 0 \/ c = 1 \/ c = 2 \/ c = 3 ->
  0 <= h <= 19 ->
  decodeBCD (Z.land (JS.bor (toBCD h) (JS.shl c 5)) 0x1F) = h /\
  Z.shiftr (JS.bor (toBCD h) (JS.shl c 5)) 5 = c.
Proof.
  intros Hc Hh.
  assert (((decodeBCD (Z.land (JS.bor (toBCD h) (JS.shl c 5)) 0x1F) =? h)
           && (Z.shiftr (JS.bor (toBCD h) (JS.shl c 5)) 5 =? c)) = true) as H.
  { destruct Hc as [-> | [-> | [-> | ->]]];
      match goal with
      | |- context [JS.shl ?c 5] =>
          apply (forallb_below
                   (fun h =>
                      (decodeBCD (Z.land (JS.bor (toBCD h) (JS.shl c 5)) 0x1F) =? h)
                      && (Z.shiftr (JS.bor (toBCD h) (JS.shl c 5)) 5 =? c))
                   20);
          [vm_compute; reflexivity | lia]
      end. }
  apply andb_true_iff in H. destruct H as [H1 H2].
  split; apply Z.eqb_eq; assumption.
Qed.

Lemma hoursByte_late (c h : Z) :
  c = 0 \/ c = 1 \/ c = 2 \/ c = 3 ->
  20 <= h <= 23 ->
  JS.bor (toBCD h) (JS.shl c 5) = JS.bor (toBCD h) (JS.shl (Z.lor c 1) 5) /\
  Z.shiftr (JS.bor (toBCD h) (JS.shl c 5)) 5 = Z.lor c 1.
Proof.
  intros Hc Hh.
  assert (h = 20 \/ h = 21 \/ h = 22 \/ h = 23) as [-> | [-> | [-> | ->]]] by lia;
    destruct Hc as [-> | [-> | [-> | ->]]]; vm_compute; split; reflexivity.
Qed.

(** X3.  Up to 19 hours a full-frame message can be read back: bits 0-4 of
    the hours byte are the BCD hours, bits 5-6 the rate code, and the next
    three bytes the BCD minutes, seconds and frames. *)
Theorem fullFrame_decode (r : FrameRate) (g : MTCGenerator) :
  frameRate g == rateValue r ->
  0 <= hours g <= 19 ->
  0 <= minutes g <= 59 ->
  0 <= seconds g <= 59 ->
  0 <= frames g <= 29 ->
  exists hh mm ss ff : Z,
    fullFrame g = [0xF0; 0x7F; 0x7F; 0x01; 0x01; hh; mm; ss; ff; 0xF7] /\
    decodeBCD (Z.land hh 0x1F) = hours g /\
    Z.shiftr hh 5 = rateCodeOf r /\
    decodeBCD mm = minutes g /\
    decodeBCD ss = seconds g /\
    decodeBCD ff = frames g.
Proof.
  intros Hr Hh Hm Hs Hf.
  exists (JS.bor (toBCD (hours g)) (JS.shl (rateCode g) 5)),
    (toBCD (minutes g)), (toBCD (seconds g)), (toBCD (frames g)).
  split; [reflexivity |].
  destruct (hoursByte_decode (rateCode g) (hours g) (rateCode_range g) Hh)
    as [D1 D2].
  split; [exact D1 |].
  split; [rewrite D2; apply rateCode_rateCodeOf; exact Hr |].
  repeat split; apply toBCD_decode_below_80; lia.
Qed.

Lemma fullFrame_decode_witness :
  exists hh mm ss ff : Z,
    fullFrame (mkGen [] true 25 19 59 58 24 3 None []) =
      [0xF0; 0x7F; 0x7F; 0x01; 0x01; hh; mm; ss; ff; 0xF7] /\
    decodeBCD (Z.land hh 0x1F) = 19 /\
    Z.shiftr hh 5 = 1 /\
    decodeBCD mm = 59 /\
    decodeBCD ss = 58 /\
    decodeBCD ff = 24.
Proof.
  apply (fullFrame_decode Fps25 (mkGen [] true 25 19 59 58 24 3 None []));
    cbn [frameRate hours minutes seconds frames rateValue];
    first [reflexivity | lia].
Defined.

(** X4.  From 20 to 23 hours the BCD hours set bit 5 of the hours byte,
    which is also the low bit of the rate code: bits 5-6 read back as the
    rate code with its low bit set, and the message at 24 frames per second
    is the message at 25, the one at 29.97 the one at 30. *)
Theorem fullFrame_late_hours_hide_rate_bit (g : MTCGenerator) :
  20 <= hours g <= 23 ->
  Z.shiftr (JS.bor (toBCD (hours g)) (JS.shl (rateCode g) 5)) 5
    = Z.lor (rateCode g) 1
  /\ fullFrame (set_frameRate 24 g) = fullFrame (set_frameRate 25 g)
  /\ fullFrame (set_frameRate 29.97 g) = fullFrame (set_frameRate 30 g).
Proof.
  intros Hh.
  split; [apply hoursByte_late; [apply rateCode_range | exact Hh] |].
  unfold fullFrame.
  cbn [hours minutes seconds frames set_frameRate].
  change (rateCode (set_frameRate 24 g)) with 0.
  change (rateCode (set_frameRate 25 g)) with 1.
  change (rateCode (set_frameRate 29.97 g)) with 2.
  change (rateCode (set_frameRate 30 g)) with 3.
  assert (JS.bor (toBCD (hours g)) (JS.shl 0 5)
          = JS.bor (toBCD (hours g)) (JS.shl 1 5)) as E0
    by exact (proj1 (hoursByte_late 0 (hours g) ltac:(auto) Hh)).
  assert (JS.bor (toBCD (hours g)) (JS.shl 2 5)
          = JS.bor (toBCD (hours g)) (JS.shl 3 5)) as E2
    by exact (proj1 (hoursByte_late 2 (hours g) ltac:(auto) Hh)).
  rewrite E0, E2. split; reflexivity.
Qed.

Lemma fullFrame_late_hours_hide_rate_bit_witness :
  fullFrame (mkGen [] true 24 23 59 59 23 0 None []) =
  fullFrame (mkGen [] true 25 23 59 59 23 0 None []).
Proof.
  apply (fullFrame_late_hours_hide_rate_bit
           (mkGen [] true 24 23 59 59 23 0 None [])).
  cbn [hours]. lia.
Defined.

(** ** The eight pieces of a frame *)

Lemma quarterFrameMessage_nibble (g : MTCGenerator) :
  0 <= quarterFrame g <= 7 ->
  quarterFrameMessage g =
    [0xF1; Z.lor (Z.shiftl (quarterFrame g) 4) (nibble g (quarterFrame g))].
Proof.
  intros Hk. unfold quarterFrameMessage.
  rewrite (pieces_nibble g _ Hk). cbn [JS.of_undefined].
  rewrite bor_shl4 by (try assumption; apply nibble_bound).
  reflexivity.
Qed.

Lemma nibble_ext (g g' : MTCGenerator) (k : Z) :
  timecode g = timecode g' -> nibble g k = nibble g' k.
Proof.
  unfold timecode, nibble. intros E. injection E as -> -> -> ->. reflexivity.
Qed.

(** The messages of [n] ticks that stay within one cycle. *)
Lemma ticks_output_within_cycle (n : nat) (g : MTCGenerator) :
  0 <= quarterFrame g ->
  quarterFrame g + Z.of_nat n <= 8 ->
  output (ticks n g) =
    output g ++
    map (fun i : nat =>
           SendMessage
             [0xF1;
              Z.lor (Z.shiftl (quarterFrame g + Z.of_nat i) 4)
                    (nibble g (quarterFrame g + Z.of_nat i))])
        (seq 0 n).
Proof.
  intros H0. induction n as [| n IH]; intros Hn.
  - change (ticks 0 g) with g. cbn [seq map]. rewrite app_nil_r. reflexivity.
  - destruct (ticks_within_cycle n g H0 ltac:(lia)) as (Iq & It & _).
    rewrite ticks_S, sendQuarterFrame_output, IH by lia.
    rewrite quarterFrameMessage_nibble by lia.
    rewrite Iq, (nibble_ext _ g _ It).
    rewrite seq_S, map_app, <- app_assoc. reflexivity.
Qed.

Lemma piece_byte_split (k p : Z) :
  0 <= k -> 0 <= p < 16 ->
  Z.shiftr (Z.lor (Z.shiftl k 4) p) 4 = k /\
  Z.land (Z.lor (Z.shiftl k 4) p) 0x0F = p.
Proof.
  intros Hk Hp. split.
  - rewrite Z.shiftr_lor, Z.shiftr_shiftl_l by lia.
    rewrite (Z.shiftr_div_pow2 p 4) by lia.
    rewrite (Z.div_small p) by lia.
    change (4 - 4) with 0. rewrite Z.shiftl_0_r, Z.lor_0_r. reflexivity.
  - rewrite Z.land_lor_distr_l, !land_0x0F.
    rewrite Z.shiftl_mul_pow2 by lia.
    rewrite Z.mod_mul by lia.
    rewrite Z.mod_small by lia. reflexivity.
Qed.

Lemma nibbles_join (v : Z) :
  0 <= v < 256 -> v = lowNibble v + 16 * highNibble v.
Proof.
  intros Hv. unfold lowNibble, highNibble.
  assert (0 <= v / 16 < 16)
    by (split; [apply Z.div_pos; lia | apply Z.div_lt_upper_bound; lia]).
  rewrite (Z.mod_small (v / 16)) by lia.
  pose proof (Z.div_mod v 16 ltac:(lia)). lia.
Qed.

(** X5.  From cursor 0, eight ticks send eight two-byte messages F1 pp whose
    high nibbles count 0..7 and whose low nibbles, taken in pairs (low
    first), give back frames, seconds, minutes and hours as they were before
    the eighth tick advanced them (fields within a byte). *)
Theorem quarter_frames_reassemble (g : MTCGenerator) :
  quarterFrame g = 0 ->
  0 <= hours g < 256 -> 0 <= minutes g < 256 ->
  0 <= seconds g < 256 -> 0 <= frames g < 256 ->
  exists ps : list Z,
    output (ticks 8 g) = output g ++ map (fun p => SendMessage [0xF1; p]) ps /\
    map (fun p => Z.shiftr p 4) ps = [0; 1; 2; 3; 4; 5; 6; 7] /\
    match map (fun p => Z.land p 0x0F) ps with
    | [f0; f1; s0; s1; m0; m1; h0; h1] =>
        frames g = f0 + 16 * f1 /\
        seconds g = s0 + 16 * s1 /\
        minutes g = m0 + 16 * m1 /\
        hours g = h0 + 16 * h1
    | _ => False
    end.
Proof.
  intros H0 Hh Hm Hs Hf.
  exists (map (fun k => Z.lor (Z.shiftl k 4) (nibble g k)) [0; 1; 2; 3; 4; 5; 6; 7]).
  split; [| split].
  - rewrite (ticks_output_within_cycle 8 g) by (rewrite H0; lia).
    rewrite H0. reflexivity.
  - cbn [map].
    repeat match goal with
           | |- _ :: _ = _ :: _ => f_equal
           end;
      apply piece_byte_split; first [lia | apply nibble_bound].
  - cbn [map].
    rewrite !(fun k Hk => proj2 (piece_byte_split k (nibble g k) Hk (nibble_bound g k)))
      by lia.
    cbn [nibble].
    repeat split; apply nibbles_join; assumption.
Qed.

Lemma quarter_frames_reassemble_witness :
  exists ps : list Z,
    output (ticks 8 (mkGen [] true 30 23 59 58 29 0 None [])) =
      [] ++ map (fun p => SendMessage [0xF1; p]) ps /\
    map (fun p => Z.shiftr p 4) ps = [0; 1; 2; 3; 4; 5; 6; 7] /\
    match map (fun p => Z.land p 0x0F) ps with
    | [f0; f1; s0; s1; m0; m1; h0; h1] =>
        29 = f0 + 16 * f1 /\ 58 = s0 + 16 * s1 /\
        59 = m0 + 16 * m1 /\ 23 = h0 + 16 * h1
    | _ => False
    end.
Proof.
  apply (quarter_frames_reassemble (mkGen [] true 30 23 59 58 29 0 None []));
    cbn [quarterFrame hours minutes seconds frames]; first [reflexivity | lia].
Defined.

(** X6.  With the cursor in 0..7, after [n] ticks the cursor is the old one
    plus [n] modulo 8, and exactly [n] calls, all of them two-byte messages
    starting with F1, have been added to the output. *)
Theorem ticks_cursor_and_messages (n : nat) (g : MTCGenerator) :
  0 <= quarterFrame g <= 7 ->
  quarterFrame (ticks n g) = (quarterFrame g + Z.of_nat n) mod 8
  /\ exists ps : list Z,
       List.length ps = n /\
       output (ticks n g) = output g ++ map (fun p => SendMessage [0xF1; p]) ps.
Proof.
  intros Hq. induction n as [| n IH].
  - change (ticks 0 g) with g. split.
    + rewrite Z.mod_small by lia. lia.
    + exists []. cbn. rewrite app_nil_r. split; reflexivity.
  - destruct IH as (Iq & ps & Il & Io).
    pose proof (Z.mod_pos_bound (quarterFrame g + Z.of_nat n) 8 ltac:(lia)) as B.
    rewrite ticks_S. split.
    + rewrite sendQuarterFrame_quarterFrame, Iq. unfold JS.rem.
      rewrite Z.rem_mod_nonneg by lia.
      rewrite Z.add_mod_idemp_l by lia. f_equal. lia.
    + rewrite sendQuarterFrame_output, Io.
      rewrite quarterFrameMessage_nibble by (rewrite Iq; lia).
      eexists (ps ++ [_]). split.
      * rewrite length_app, Il. cbn. lia.
      * rewrite map_app, <- app_assoc. reflexivity.
Qed.

Lemma ticks_cursor_and_messages_witness :
  quarterFrame (ticks 13 (mkGen [] true 25 1 2 3 4 5 None [])) = (5 + 13) mod 8.
Proof.
  apply (ticks_cursor_and_messages 13 (mkGen [] true 25 1 2 3 4 5 None [])).
  cbn [quarterFrame]. lia.
Defined.

(** ** Counting frames *)

Lemma frameIndex_inj (R : Z) (tc tc' : Z * Z * Z * Z) :
  timecodeInRange R tc -> timecodeInRange R tc' ->
  frameIndex R tc = frameIndex R tc' -> tc = tc'.
Proof.
  destruct tc as [[[h m] s] f], tc' as [[[h' m'] s'] f'].
  unfold timecodeInRange, frameIndex.
  intros (Hh & Hm & Hs & Hf) (Hh' & Hm' & Hs' & Hf') E.
  assert ((h * 60 + m) * 60 + s = (h' * 60 + m') * 60 + s') as A by nia.
  assert (f = f') by nia.
  assert (h = h') by lia. assert (m = m') by lia. assert (s = s') by lia.
  congruence.
Qed.

Lemma frameIndex_range (R : Z) (tc : Z * Z * Z * Z) :
  timecodeInRange R tc -> 0 <= frameIndex R tc < 86400 * R.
Proof.
  destruct tc as [[[h m] s] f]. unfold timecodeInRange, frameIndex.
  intros (Hh & Hm & Hs & Hf). nia.
Qed.

Lemma nextTimecode_frameIndex (R : Z) (tc : Z * Z * Z * Z) :
  timecodeInRange R tc ->
  frameIndex R (nextTimecode R tc) = (frameIndex R tc + 1) mod (86400 * R).
Proof.
  intros H. pose proof (frameIndex_range R tc H) as B.
  destruct tc as [[[h m] s] f]. unfold timecodeInRange in H.
  destruct H as (Hh & Hm & Hs & Hf).
  unfold nextTimecode, frameIndex in *. cbv zeta.
  destruct (Z.eqb_spec (f + 1) R) as [F | F];
    [destruct (Z.eqb_spec (s + 1) 60) as [S | S];
     [destruct (Z.eqb_spec (m + 1) 60) as [M | M];
      [destruct (Z.eqb_spec (h + 1) 24) as [Hd | Hd] | ] | ] | ].
  - assert (h = 23) by lia. assert (m = 59) by lia. assert (s = 59) by lia.
    subst h m s.
    replace (((23 * 60 + 59) * 60 + 59) * R + f + 1) with (1 * (86400 * R)) by lia.
    rewrite Z.mod_mul by lia. lia.
  - rewrite Z.mod_small by nia. nia.
  - rewrite Z.mod_small by nia. nia.
  - rewrite Z.mod_small by nia. nia.
  - rewrite Z.mod_small by nia. nia.
Qed.

(** One whole cycle from cursor 0. *)
Lemma ticks_8 (g : MTCGenerator) :
  quarterFrame g = 0 ->
  quarterFrame (ticks 8 g) = 0 /\
  frameRate (ticks 8 g) = frameRate g /\
  timecode (ticks 8 g) = timecode (advanceFrame g).
Proof.
  intros H0.
  destruct (ticks_within_cycle 7 g) as (Q7 & T7 & R7); try lia.
  rewrite H0 in Q7. change (0 + Z.of_nat 7) with 7 in Q7.
  rewrite (ticks_S 7). repeat split.
  - rewrite sendQuarterFrame_quarterFrame, Q7. reflexivity.
  - rewrite sendQuarterFrame_frameRate. exact R7.
  - rewrite sendQuarterFrame_timecode_wrap by exact Q7.
    apply timecode_advanceFrame_ext; assumption.
Qed.

Lemma ticks_add (a b : nat) (g : MTCGenerator) :
  ticks (a + b) g = ticks a (ticks b g).
Proof. unfold ticks. apply Nat.iter_add. Qed.

(** [n] whole cycles from cursor 0, within the bounds. *)
Lemma ticks_cycles (n : nat) (g : MTCGenerator) :
  quarterFrame g = 0 ->
  timecodeInRange (countRate (frameRate g)) (timecode g) ->
  quarterFrame (ticks (8 * n) g) = 0 /\
  frameRate (ticks (8 * n) g) = frameRate g /\
  timecodeInRange (countRate (frameRate g)) (timecode (ticks (8 * n) g)) /\
  frameIndex (countRate (frameRate g)) (timecode (ticks (8 * n) g)) =
    (frameIndex (countRate (frameRate g)) (timecode g) + Z.of_nat n)
      mod (86400 * countRate (frameRate g)).
Proof.
  intros H0 Hr.
  assert (0 < 86400 * countRate (frameRate g)) as D.
  { pose proof (frameIndex_range _ _ Hr). lia. }
  induction n as [| n IH].
  - change (ticks (8 * 0) g) with g. cbn [Z.of_nat].
    split; [exact H0 |]. split; [reflexivity |]. split; [exact Hr |].
    rewrite Z.add_0_r, Z.mod_small by (apply frameIndex_range; exact Hr).
    reflexivity.
  - destruct IH as (Iq & If & Ir & Ii).
    replace (8 * S n)%nat with (8 + 8 * n)%nat by lia.
    rewrite ticks_add.
    destruct (ticks_8 (ticks (8 * n) g) Iq) as (Q & F & T).
    rewrite <- If in Ir, Ii.
    rewrite advanceFrame_nextTimecode in T by exact Ir.
    rewrite Q, F, T. rewrite If in *.
    split; [reflexivity |]. split; [reflexivity |]. split.
    + apply nextTimecode_inRange. exact Ir.
    + rewrite nextTimecode_frameIndex by exact Ir.
      rewrite Ii, Z.add_mod_idemp_l by lia. f_equal. lia.
Qed.

(** X7.  Within the bounds and from cursor 0, [8 * n] ticks advance the
    timecode by exactly [n] frames: the timecode stays within the bounds and
    its position in the day, counted in frames at the counting rate (which
    identifies it), grows by [n] modulo the frames of a day. *)
Theorem ticks_advance_frames (n : nat) (g : MTCGenerator) :
  quarterFrame g = 0 ->
  timecodeInRange (countRate (frameRate g)) (timecode g) ->
  quarterFrame (ticks (8 * n) g) = 0
  /\ timecodeInRange (countRate (frameRate g)) (timecode (ticks (8 * n) g))
  /\ frameIndex (countRate (frameRate g)) (timecode (ticks (8 * n) g)) =
       (frameIndex (countRate (frameRate g)) (timecode g) + Z.of_nat n)
         mod (86400 * countRate (frameRate g))
  /\ (forall tc : Z * Z * Z * Z,
        timecodeInRange (countRate (frameRate g)) tc ->
        frameIndex (countRate (frameRate g)) tc =
          frameIndex (countRate (frameRate g)) (timecode (ticks (8 * n) g)) ->
        timecode (ticks (8 * n) g) = tc).
Proof.
  intros H0 Hr.
  destruct (ticks_cycles n g H0 Hr) as (Q & _ & R & I).
  split; [exact Q |]. split; [exact R |]. split; [exact I |].
  intros tc Htc E. symmetry.
  apply (frameIndex_inj _ _ _ Htc R E).
Qed.

Lemma ticks_advance_frames_witness :
  timecode (ticks (8 * 31) (mkGen [] true 30 23 59 59 0 0 None [])) = (0, 0, 0, 1).
Proof.
  destruct (ticks_advance_frames 31 (mkGen [] true 30 23 59 59 0 0 None []))
    as (_ & _ & _ & U).
  - reflexivity.
  - unfold timecodeInRange, timecode.
    cbn [frameRate hours minutes seconds frames].
    change (countRate 30) with 30. lia.
  - apply U.
    + unfold timecodeInRange. cbn [frameRate].
      change (countRate 30) with 30. lia.
    + vm_compute. reflexivity.
Defined.

(** X8.  At each of the four frame rates, one second of timecode takes
    [8 * ceil(rate)] ticks, and with the delay [start] schedules between
    ticks that is 1920 ms of scheduled delay at 24, 29.97 and 30 frames per
    second and 2000 ms at 25: the timecode is paced at about half the
    declared rate. *)
Theorem second_of_timecode_schedule (r : FrameRate) (g : MTCGenerator) :
  frameRate g == rateValue r ->
  quarterFrame g = 0 ->
  timecodeInRange (countRate (frameRate g)) (timecode g) ->
  frameIndex (countRate (frameRate g))
             (timecode (ticks (8 * Z.to_nat (countRate (frameRate g))) g)) =
    (frameIndex (countRate (frameRate g)) (timecode g)
     + countRate (frameRate g)) mod (86400 * countRate (frameRate g))
  /\ Z.of_nat (8 * Z.to_nat (countRate (frameRate g))) * interval g =
       match r with Fps25 => 2000 | _ => 1920 end.
Proof.
  intros Hr H0 Ht.
  destruct (ticks_cycles (Z.to_nat (countRate (frameRate g))) g H0 Ht)
    as (_ & _ & _ & I).
  pose proof (countRate_rateValue _ _ Hr) as C.
  split.
  - rewrite I. f_equal. rewrite C. destruct r; reflexivity.
  - unfold interval. rewrite (interval_rateValue _ _ Hr), C.
    destruct r; reflexivity.
Qed.

Lemma second_of_timecode_schedule_witness :
  Z.of_nat (8 * Z.to_nat (countRate 25))
  * interval (mkGen [] true 25 10 0 0 0 0 None []) = 2000.
Proof.
  apply (second_of_timecode_schedule Fps25 (mkGen [] true 25 10 0 0 0 0 None [])).
  - reflexivity.
  - reflexivity.
  - unfold timecodeInRange, timecode.
    cbn [frameRate hours minutes seconds frames].
    change (countRate 25) with 25. lia.
Defined.

(** ** Connecting again *)

(** A later [findAndConnectToMadMapper] either throws and changes nothing or
    adds one [openPort], for a listed port whose name matches, to what the
    output has received. *)
Lemma reconnect_cases (names : list string) (g : MTCGenerator) :
  (existsb (JS.includes "MadMapper In") names = false /\
   reconnect names g = (Throw PortNotFound, g))
  \/ (exists (port : nat) (name : string),
        nth_error names port = Some name /\
        JS.includes "MadMapper In" name = true /\
        reconnect names g =
          (Normal, set_output (output g ++ [OpenPort (Z.of_nat port)]) g)).
Proof.
  unfold reconnect, findAndConnectToMadMapper.
  destruct (existsb (JS.includes "MadMapper In") names) eqn:B.
  - right.
    destruct (scanPorts_some names 0 (-1) B) as (k & name & Hn & Hi & Hs).
    exists k, name. split; [exact Hn |]. split; [exact Hi |].
    rewrite Hs.
    destruct (Z.eqb_spec (0 + Z.of_nat k) (-1)) as [C | C]; [lia |].
    reflexivity.
  - left. split; [reflexivity |].
    rewrite (scanPorts_none names 0 (-1) B). reflexivity.
Qed.

Lemma reconnect_frame (names : list string) (g : MTCGenerator) :
  timecode (snd (reconnect names g)) = timecode g /\
  quarterFrame (snd (reconnect names g)) = quarterFrame g /\
  frameRate (snd (reconnect names g)) = frameRate g /\
  running (snd (reconnect names g)) = running g /\
  timer (snd (reconnect names g)) = timer g /\
  intervals (snd (reconnect names g)) = intervals g.
Proof.
  destruct (reconnect_cases names g) as [(_ & ->) | (port & name & _ & _ & ->)];
    repeat split.
Qed.

(** ** Bounds that survive a change of frame rate *)

Lemma validRate_countRate (rate : Q) :
  validRate rate = true ->
  countRate rate = 24 \/ countRate rate = 25 \/ countRate rate = 30.
Proof.
  intros H. apply validRate_iff in H. destruct H as [r E].
  rewrite (countRate_rateValue _ _ E). destruct r; auto.
Qed.

(** The frame update brings frames below the counting rate again. *)
Lemma advanceFrame_inRange (g : MTCGenerator) :
  looselyBounded g ->
  timecodeInRange (countRate (frameRate g)) (timecode (advanceFrame g)).
Proof.
  intros (Ht & _ & Hv).
  unfold timecodeInRange, timecode in Ht. destruct Ht as (Hh & Hm & Hs & Hf).
  pose proof (validRate_countRate _ Hv) as C.
  rewrite advanceFrame_timecode. unfold timecodeInRange.
  repeat match goal with
         | |- context [?a <=? ?b] => destruct (Z.leb_spec a b)
         end; lia.
Qed.

Lemma looselyBounded_ext (g g' : MTCGenerator) :
  timecode g' = timecode g -> quarterFrame g' = quarterFrame g ->
  frameRate g' = frameRate g ->
  looselyBounded g -> looselyBounded g'.
Proof.
  unfold looselyBounded. intros -> -> ->. exact (fun H => H).
Qed.

Lemma start_frame (g : MTCGenerator) :
  timecode (start g) = timecode g /\
  quarterFrame (start g) = quarterFrame g /\
  frameRate (start g) = frameRate g.
Proof.
  unfold start. destruct (running g); repeat split.
Qed.

Lemma close_frame (g : MTCGenerator) :
  timecode (close g) = timecode g /\
  quarterFrame (close g) = quarterFrame g /\
  frameRate (close g) = frameRate g.
Proof.
  destruct (stop_frame g) as (_ & _ & Sf & St & Sq & _).
  unfold close, closePort, timecode in *.
  cbn [set_output hours minutes seconds frames quarterFrame frameRate].
  repeat split; assumption.
Qed.

Lemma handleExit_close (g : MTCGenerator) : handleExit g = close g.
Proof.
  unfold handleExit, close.
  rewrite (stop_stopped (stop g) (proj1 (stop_frame g))). reflexivity.
Qed.

Lemma sendQuarterFrame_looselyBounded (g : MTCGenerator) :
  looselyBounded g -> looselyBounded (sendQuarterFrame g).
Proof.
  intros H. pose proof H as (Ht & Hq & Hv).
  unfold looselyBounded.
  rewrite sendQuarterFrame_quarterFrame, sendQuarterFrame_frameRate.
  split; [| split; [| exact Hv]].
  - destruct (Z.eq_dec (quarterFrame g) 7) as [E | E].
    + rewrite sendQuarterFrame_timecode_wrap by exact E.
      pose proof (advanceFrame_inRange g H) as A.
      pose proof (validRate_countRate _ Hv) as C.
      destruct (timecode (advanceFrame g)) as [[[h m] s] f].
      unfold timecodeInRange in *. lia.
    + rewrite sendQuarterFrame_timecode_same by lia. exact Ht.
  - unfold JS.rem.
    destruct (Z.eq_dec (quarterFrame g) 7) as [E | E].
    + rewrite E. cbn. lia.
    + rewrite Z.rem_small by lia. lia.
Qed.

(** X9.  The bounds with frames below 30 (hours 0..23, minutes and seconds
    0..59, cursor 0..7, a valid frame rate) are kept by every call, a change
    of frame rate included, whether it is accepted or rejected;
    [setPosition] needs its arguments within them.  From such a state the
    frame update of [sendQuarterFrame] always leaves frames below the
    counting rate of the current frame rate. *)
Theorem looselyBounded_preserved (c : Call) (g : MTCGenerator) :
  looselyBounded g ->
  match c with
  | SetPosition h m s f =>
      0 <= h < 24 /\ 0 <= m < 60 /\ 0 <= s < 60 /\ 0 <= f < 30
  | _ => True
  end ->
  looselyBounded (call c g)
  /\ timecodeInRange (countRate (frameRate g)) (timecode (advanceFrame g)).
Proof.
  intros H P. split; [| apply advanceFrame_inRange; exact H].
  destruct c as [| | h m s f | rate | | | | | id | names | value]; cbn [call].
  - destruct (start_frame g) as (T & Q & R).
    exact (looselyBounded_ext g _ T Q R H).
  - destruct (stop_frame g) as (_ & _ & R & T & Q & _).
    exact (looselyBounded_ext g _ T Q R H).
  - destruct H as (_ & _ & Hv).
    unfold setPosition.
    cbn [running set_hours set_minutes set_seconds set_frames set_quarterFrame].
    destruct (running g); unfold looselyBounded, timecodeInRange, timecode;
      unfold sendFullFrame, sendMessage;
      cbn [set_output set_hours set_minutes set_seconds set_frames
           set_quarterFrame frameRate hours minutes seconds frames quarterFrame];
      (split; [exact P | split; [lia | exact Hv]]).
  - unfold setFrameRate.
    destruct (validRate rate) eqn:V; cbn [negb snd]; [| exact H].
    destruct H as (Ht & Hq & _).
    split; [exact Ht | split; [exact Hq | exact V]].
  - exact H.
  - apply sendQuarterFrame_looselyBounded. exact H.
  - destruct (close_frame g) as (T & Q & R).
    exact (looselyBounded_ext g _ T Q R H).
  - rewrite handleExit_close.
    destruct (close_frame g) as (T & Q & R).
    exact (looselyBounded_ext g _ T Q R H).
  - unfold fire. destruct (active id g); [| exact H].
    apply sendQuarterFrame_looselyBounded. exact H.
  - destruct (reconnect_frame names g) as (T & Q & R & _).
    exact (looselyBounded_ext g _ T Q R H).
  - exact H.
Qed.

Lemma looselyBounded_preserved_witness :
  looselyBounded (mkGen [] true 30 23 59 59 29 7 (Some 0%nat) [(8, true)]) /\
  looselyBounded
    (call (SetFrameRate 24)
          (mkGen [] true 30 23 59 59 29 7 (Some 0%nat) [(8, true)])).
Proof.
  assert (looselyBounded
            (mkGen [] true 30 23 59 59 29 7 (Some 0%nat) [(8, true)])) as L.
  { unfold looselyBounded, timecodeInRange, timecode.
    cbn [frameRate hours minutes seconds frames quarterFrame].
    repeat split; try lia; reflexivity. }
  split; [exact L |].
  exact (proj1 (looselyBounded_preserved (SetFrameRate 24) _ L I)).
Defined.

(** ** One tick loop at most *)

Lemma filter_deactivate (id : nat) (l : list (Z * bool)) (d : Z) :
  nth_error l id = Some (d, true) ->
  S (List.length (filter snd (deactivate id l))) = List.length (filter snd l).
Proof.
  revert id. induction l as [| [d' a] l IH]; intros [| id] H; cbn in H.
  - discriminate.
  - discriminate.
  - injection H as -> ->. reflexivity.
  - cbn [deactivate filter snd]. destruct a; cbn [List.length].
    + rewrite (IH id H). reflexivity.
    + exact (IH id H).
Qed.

Lemma no_active_interval (l : list (Z * bool)) (id : nat) :
  List.length (filter snd l) = 0%nat ->
  match nth_error l id with Some (_, a) => a | None => false end = false.
Proof.
  revert id. induction l as [| [d a] l IH]; intros [| id] H; cbn;
    try reflexivity.
  - destruct a; [discriminate | reflexivity].
  - apply IH. cbn in H. destruct a; [discriminate | exact H].
Qed.

Lemma active_true (id : nat) (g : MTCGenerator) :
  active id g = true -> exists d : Z, nth_error (intervals g) id = Some (d, true).
Proof.
  unfold active. destruct (nth_error (intervals g) id) as [[d a] |];
    [| discriminate].
  intros ->. exists d. reflexivity.
Qed.

Lemma timersConsistent_ext (g g' : MTCGenerator) :
  running g' = running g -> timer g' = timer g -> intervals g' = intervals g ->
  timersConsistent g -> timersConsistent g'.
Proof.
  unfold timersConsistent, activeCount, active. intros -> -> ->.
  exact (fun H => H).
Qed.

Lemma sendQuarterFrame_timers (g : MTCGenerator) :
  running (sendQuarterFrame g) = running g /\
  timer (sendQuarterFrame g) = timer g /\
  intervals (sendQuarterFrame g) = intervals g.
Proof.
  unfold sendQuarterFrame.
  destruct (quarterFrame _ =? 0).
  - destruct (advanceFrame_frame
                (set_quarterFrame (JS.rem (quarterFrame g + 1) 8)
                                  (sendMessage (quarterFrameMessage g) g)))
      as (_ & R & _ & _ & T & I).
    cbn [quarterFrame sendMessage set_output] in R, T, I |- *.
    rewrite R, T, I. repeat split.
  - repeat split.
Qed.

Lemma setPosition_timers (h m s f : Z) (g : MTCGenerator) :
  running (setPosition h m s f g) = running g /\
  timer (setPosition h m s f g) = timer g /\
  intervals (setPosition h m s f g) = intervals g.
Proof.
  unfold setPosition.
  cbn [running set_hours set_minutes set_seconds set_frames set_quarterFrame].
  destruct (running g) eqn:R; repeat split; exact R.
Qed.

Lemma start_timersConsistent (g : MTCGenerator) :
  timersConsistent g -> timersConsistent (start g).
Proof.
  intros H. destruct (running g) eqn:R.
  - rewrite (start_running g R). exact H.
  - destruct H as (Hc & _). rewrite R in Hc.
    rewrite (start_stopped g R).
    unfold timersConsistent, activeCount, active in *.
    cbn [running timer intervals]. split.
    + rewrite filter_app, length_app, Hc. reflexivity.
    + intros _. exists (List.length (intervals g)). split; [reflexivity |].
      rewrite nth_error_app2 by lia. rewrite Nat.sub_diag. reflexivity.
Qed.

Lemma stop_timersConsistent (g : MTCGenerator) :
  timersConsistent g -> timersConsistent (stop g).
Proof.
  intros H. destruct (running g) eqn:R.
  - destruct H as (Hc & Ha). rewrite R in Hc.
    destruct (Ha R) as (id & T & A).
    destruct (active_true id g A) as (d & N).
    rewrite (stop_running g R), T.
    unfold timersConsistent, activeCount, clearInterval in *.
    cbn [running timer intervals set_intervals set_running]. split.
    + pose proof (filter_deactivate id (intervals g) d N). lia.
    + discriminate.
  - rewrite (stop_stopped g R). exact H.
Qed.

Lemma close_timersConsistent (g : MTCGenerator) :
  timersConsistent g -> timersConsistent (close g).
Proof.
  intros H. apply stop_timersConsistent in H.
  apply (timersConsistent_ext (stop g)); [reflexivity .. | exact H].
Qed.

Lemma call_timersConsistent (c : Call) (g : MTCGenerator) :
  timersConsistent g -> timersConsistent (call c g).
Proof.
  intros H.
  destruct c as [| | h m s f | rate | | | | | id | names | value]; cbn [call].
  - apply start_timersConsistent. exact H.
  - apply stop_timersConsistent. exact H.
  - destruct (setPosition_timers h m s f g) as (R & T & I).
    exact (timersConsistent_ext g _ R T I H).
  - unfold setFrameRate. destruct (validRate rate); exact H.
  - exact H.
  - destruct (sendQuarterFrame_timers g) as (R & T & I).
    exact (timersConsistent_ext g _ R T I H).
  - apply close_timersConsistent. exact H.
  - rewrite handleExit_close. apply close_timersConsistent. exact H.
  - unfold fire. destruct (active id g); [| exact H].
    destruct (sendQuarterFrame_timers g) as (R & T & I).
    exact (timersConsistent_ext g _ R T I H).
  - destruct (reconnect_frame names g) as (_ & _ & _ & R & T & I).
    exact (timersConsistent_ext g _ R T I H).
  - exact H.
Qed.

Lemma calls_timersConsistent (cs : list Call) (g : MTCGenerator) :
  timersConsistent g -> timersConsistent (calls cs g).
Proof.
  revert g. induction cs as [| c cs IH]; intros g H.
  - exact H.
  - apply (IH (call c g)). apply call_timersConsistent. exact H.
Qed.

Lemma construct_timersConsistent (names : list string) (g : MTCGenerator) :
  construct names = inr g -> timersConsistent g.
Proof.
  unfold construct.
  destruct (findAndConnectToMadMapper names) as [e | cs]; [discriminate |].
  intros E. injection E as <-.
  split; [reflexivity | discriminate].
Qed.

Lemma stopped_fire (id : nat) (g : MTCGenerator) :
  timersConsistent g -> running g = false -> fire id g = g.
Proof.
  intros (Hc & _) R. rewrite R in Hc.
  unfold fire, active.
  rewrite (no_active_interval (intervals g) id Hc). reflexivity.
Qed.

(** X10.  After any sequence of calls and interval callbacks on a newly
    constructed generator there is exactly one active interval while the
    session is running and none while it is stopped; while running, the
    active one is the one whose handle the session holds, so only its
    callback can change anything. *)
Theorem one_tick_loop (names : list string) (g : MTCGenerator)
        (cs : list Call) :
  construct names = inr g ->
  (activeCount (calls cs g) = if running (calls cs g) then 1%nat else 0%nat)
  /\ (running (calls cs g) = true ->
      exists id : nat,
        timer (calls cs g) = Some id /\
        active id (calls cs g) = true /\
        forall id' : nat, id' <> id -> fire id' (calls cs g) = calls cs g).
Proof.
  intros E.
  pose proof (calls_timersConsistent cs g (construct_timersConsistent _ _ E))
    as (Hc & Ha).
  split; [exact Hc |].
  intros R. destruct (Ha R) as (id & T & A).
  exists id. split; [exact T |]. split; [exact A |].
  intros id' N. unfold fire.
  destruct (active id' (calls cs g)) eqn:A'; [| reflexivity].
  exfalso. rewrite R in Hc.
  destruct (active_true _ _ A) as (d & Nd).
  unfold activeCount in Hc.
  pose proof (filter_deactivate id (intervals (calls cs g)) d Nd) as F.
  assert (List.length (filter snd (deactivate id (intervals (calls cs g)))) = 0%nat)
    as Z0 by lia.
  pose proof (no_active_interval _ id' Z0) as O.
  rewrite nth_error_deactivate_other in O by exact N.
  unfold active in A'. rewrite A' in O. discriminate.
Qed.

Lemma one_tick_loop_witness :
  activeCount
    (calls [Start; Start; SetFrameRate 25; Stop; Start; Fire 0%nat]
           (mkGen [OpenPort 0] false 30 0 0 0 0 0 None [])) = 1%nat.
Proof.
  exact (proj1 (one_tick_loop ["MadMapper In"] _
                  [Start; Start; SetFrameRate 25; Stop; Start; Fire 0%nat]
                  eq_refl)).
Defined.

(** X11.  After any sequence of calls and interval callbacks on a newly
    constructed generator, once [stop] or [close] has returned no interval
    callback does anything: no tick is sent and the timecode stands still
    until the next [start]. *)
Theorem no_tick_after_stop (names : list string) (g : MTCGenerator)
        (cs : list Call) (id : nat) :
  construct names = inr g ->
  fire id (stop (calls cs g)) = stop (calls cs g)
  /\ fire id (close (calls cs g)) = close (calls cs g).
Proof.
  intros E.
  pose proof (calls_timersConsistent cs g (construct_timersConsistent _ _ E))
    as H.
  split.
  - apply stopped_fire.
    + apply stop_timersConsistent. exact H.
    + exact (proj1 (stop_frame _)).
  - apply stopped_fire.
    + apply close_timersConsistent. exact H.
    + apply close_running.
Qed.

Lemma no_tick_after_stop_witness :
  fire 0%nat
    (stop (calls [Start] (mkGen [OpenPort 0] false 30 0 0 0 0 0 None []))) =
  stop (calls [Start] (mkGen [OpenPort 0] false 30 0 0 0 0 0 None [])).
Proof.
  exact (proj1 (no_tick_after_stop ["MadMapper In"] _ [Start] 0%nat eq_refl)).
Defined.

(** ** Exit *)

(** X12.  [handleExit] does what a single [close] does (its own [stop] is
    absorbed by the one in [close]): it leaves the session stopped with no
    active interval callback, makes exactly one [closePort] call and sends
    no message. *)
Theorem handleExit_closes_once (g : MTCGenerator) :
  handleExit g = close g
  /\ running (handleExit g) = false
  /\ output (handleExit g) = output g ++ [ClosePort]
  /\ closeCalls (handleExit g) = S (closeCalls g)
  /\ timecode (handleExit g) = timecode g.
Proof.
  rewrite handleExit_close.
  split; [reflexivity |].
  split; [apply close_running |].
  split; [apply close_output |].
  split.
  - unfold closeCalls. rewrite close_output, filter_app, length_app.
    cbn. lia.
  - exact (proj1 (close_frame g)).
Qed.

(** ** Finding the port *)

Lemma prefix_append (sub s : string) :
  String.prefix sub s = true <-> exists post : string, s = (sub ++ post)%string.
Proof.
  revert s. induction sub as [| a sub IH]; intros s.
  - split; [intros _; exists s; reflexivity |].
    intros _. destruct s; reflexivity.
  - destruct s as [| b s]; cbn [String.prefix].
    + split; [discriminate | intros [post E]; discriminate].
    + destruct (Ascii.ascii_dec a b) as [-> | N].
      * rewrite IH. split; intros [post E]; exists post.
        -- cbn. rewrite <- E. reflexivity.
        -- cbn in E. injection E as E. exact E.
      * split; [discriminate |].
        intros [post E]. cbn in E. injection E as E _. congruence.
Qed.

(** [JS.includes] decides whether the string contains the substring. *)
Lemma includes_substring (sub s : string) :
  JS.includes sub s = true <->
  exists pre post : string, s = (pre ++ sub ++ post)%string.
Proof.
  induction s as [| b s IH].
  - cbn [JS.includes]. rewrite orb_false_r, prefix_append. split.
    + intros [post E]. exists EmptyString, post. exact E.
    + intros [pre [post E]]. destruct pre as [| c pre]; [| discriminate].
      exists post. exact E.
  - cbn [JS.includes]. rewrite orb_true_iff, prefix_append, IH. split.
    + intros [[post E] | [pre [post E]]].
      * exists EmptyString, post. exact E.
      * exists (String b pre), post. cbn. rewrite <- E. reflexivity.
    + intros [pre [post E]]. destruct pre as [| c pre].
      * left. exists post. exact E.
      * right. cbn in E. injection E as _ E. exists pre, post. exact E.
Qed.

(** The loop ends on the last matching index: no later name matches. *)
Lemma scanPorts_last (names : list string) (i found : Z) :
  existsb (JS.includes "MadMapper In") names = true ->
  exists (k : nat) (name : string),
    nth_error names k = Some name /\
    JS.includes "MadMapper In" name = true /\
    (forall (j : nat) (name' : string),
        (k < j)%nat -> nth_error names j = Some name' ->
        JS.includes "MadMapper In" name' = false) /\
    scanPorts names i found = i + Z.of_nat k.
Proof.
  revert i found. induction names as [| name rest IH]; intros i found H.
  - discriminate.
  - cbn [scanPorts].
    destruct (existsb (JS.includes "MadMapper In") rest) eqn:R.
    + destruct (IH (i + 1)
                   (if JS.includes "MadMapper In" name then i else found)
                   eq_refl) as (k & name' & Hn & Hi & Hl & Hs).
      exists (S k), name'. repeat split; try assumption.
      * intros [| j] n' Hj Hn'; [lia |].
        apply (Hl j n'); [lia | exact Hn'].
      * rewrite Hs. lia.
    + cbn [existsb] in H. rewrite R, orb_false_r in H.
      exists 0%nat, name. repeat split; try assumption.
      * intros [| j] n' Hj Hn'; [lia |].
        cbn in Hn'. apply nth_error_In in Hn'.
        destruct (JS.includes "MadMapper In" n') eqn:C; [| reflexivity].
        assert (existsb (JS.includes "MadMapper In") rest = true)
          by (apply existsb_exists; exists n'; split; assumption).
        congruence.
      * rewrite H, (scanPorts_none rest _ _ R). cbn. lia.
Qed.

Lemma construct_inr (names : list string) (g : MTCGenerator) :
  construct names = inr g ->
  existsb (JS.includes "MadMapper In") names = true /\
  g = mkGen [OpenPort (scanPorts names 0 (-1))] false 30 0 0 0 0 0 None [].
Proof.
  unfold construct, findAndConnectToMadMapper.
  destruct (existsb (JS.includes "MadMapper In") names) eqn:B.
  - destruct (scanPorts names 0 (-1) =? -1); [discriminate |].
    intros E. injection E as <-. split; reflexivity.
  - rewrite (scanPorts_none names 0 (-1) B). discriminate.
Qed.

(** X13.  When construction succeeds, the one call made on the output opens
    the last port whose name contains the text "MadMapper In": the name at
    the opened index contains it and no name at a later index does. *)
Theorem construct_opens_last_match (names : list string) (g : MTCGenerator) :
  construct names = inr g ->
  exists (port : nat) (name : string),
    output g = [OpenPort (Z.of_nat port)] /\
    nth_error names port = Some name /\
    (exists pre post : string, name = (pre ++ "MadMapper In" ++ post)%string) /\
    (forall (j : nat) (name' : string),
        (port < j)%nat -> nth_error names j = Some name' ->
        forall pre post : string,
          name' <> (pre ++ "MadMapper In" ++ post)%string).
Proof.
  intros E. destruct (construct_inr names g E) as (B & ->).
  destruct (scanPorts_last names 0 (-1) B) as (k & name & Hn & Hi & Hl & Hs).
  exists k, name. cbn [output]. rewrite Hs.
  split; [reflexivity |]. split; [exact Hn |].
  split; [apply includes_substring; exact Hi |].
  intros j name' Hj Hn' pre post C.
  pose proof (Hl j name' Hj Hn') as F.
  assert (JS.includes "MadMapper In" name' = true) as T
    by (apply includes_substring; exists pre, post; exact C).
  congruence.
Qed.

Lemma construct_opens_last_match_witness :
  exists (port : nat) (name : string),
    output (mkGen [OpenPort 2] false 30 0 0 0 0 0 None []) =
      [OpenPort (Z.of_nat port)] /\
    nth_error ["MadMapper In"; "IAC Bus"; "to MadMapper In 2"; "MadMapper Out"]
              port = Some name /\
    (exists pre post : string, name = (pre ++ "MadMapper In" ++ post)%string) /\
    (forall (j : nat) (name' : string),
        (port < j)%nat ->
        nth_error ["MadMapper In"; "IAC Bus"; "to MadMapper In 2"; "MadMapper Out"]
                  j = Some name' ->
        forall pre post : string,
          name' <> (pre ++ "MadMapper In" ++ post)%string).
Proof.
  apply (construct_opens_last_match
           ["MadMapper In"; "IAC Bus"; "to MadMapper In 2"; "MadMapper Out"]).
  reflexivity.
Defined.

(** ** The program *)

(** X14.  The program of index.js: when a port name contains "MadMapper In"
    it opens the last such port, sends one full-frame message for
    00:00:00:00 at 30 frames per second (F0 7F 7F 01 01 60 00 00 00 F7) and
    ends running with one active interval of 8 ms; when no name does, it
    ends with the port-not-found error and nothing has been sent. *)
Theorem main_outcome (names : list string) :
  (existsb (JS.includes "MadMapper In") names = true ->
   exists port : nat,
     main names =
       inr (mkGen [OpenPort (Z.of_nat port);
                   SendMessage
                     [0xF0; 0x7F; 0x7F; 0x01; 0x01; 0x60; 0x00; 0x00; 0x00; 0xF7]]
                  true 30 0 0 0 0 0 (Some 0%nat) [(8, true)]))
  /\ (existsb (JS.includes "MadMapper In") names = false ->
      main names = inl PortNotFound).
Proof.
  unfold main, construct, findAndConnectToMadMapper. split; intros B.
  - destruct (scanPorts_some names 0 (-1) B) as (k & name & _ & _ & Hs).
    exists k. rewrite Hs.
    destruct (Z.eqb_spec (0 + Z.of_nat k) (-1)) as [C | C]; [lia |].
    reflexivity.
  - rewrite (scanPorts_none names 0 (-1) B). reflexivity.
Qed.

(** ** What reaches the output *)

(** X15.  Every call of a method and every interval callback leaves what
    the output has received so far in place and adds at most one call to it:
    a ten-byte message starting with F0, a two-byte message starting with F1,
    [closePort], or [openPort].  Only [findAndConnectToMadMapper] adds an
    [openPort], and then for a listed port whose name contains the text
    "MadMapper In"; no other method and no callback opens a port. *)
Theorem output_grows_by_one (c : Call) (g : MTCGenerator) :
  output (call c g) = output g
  \/ (exists hh mm ss ff : Z,
        output (call c g) =
          output g ++
          [SendMessage [0xF0; 0x7F; 0x7F; 0x01; 0x01; hh; mm; ss; ff; 0xF7]])
  \/ (exists p : Z, output (call c g) = output g ++ [SendMessage [0xF1; p]])
  \/ output (call c g) = output g ++ [ClosePort]
  \/ (exists (names : list string) (port : nat) (name : string),
        c = FindAndConnectToMadMapper names /\
        nth_error names port = Some name /\
        (exists pre post : string,
            name = (pre ++ "MadMapper In" ++ post)%string) /\
        output (call c g) = output g ++ [OpenPort (Z.of_nat port)]).
Proof.
  destruct c as [| | h m s f | rate | | | | | id | names | value]; cbn [call].
  - destruct (running g) eqn:R.
    + left. rewrite (start_running g R). reflexivity.
    + right. left. rewrite (start_stopped g R). cbn [output].
      do 4 eexists. reflexivity.
  - left. exact (proj1 (proj2 (stop_frame g))).
  - unfold setPosition.
    cbn [running set_hours set_minutes set_seconds set_frames set_quarterFrame].
    destruct (running g).
    + right. left. do 4 eexists. reflexivity.
    + left. reflexivity.
  - left. unfold setFrameRate. destruct (validRate rate); reflexivity.
  - right. left. do 4 eexists. reflexivity.
  - right. right. left. rewrite sendQuarterFrame_output.
    eexists. reflexivity.
  - right. right. right. left. apply close_output.
  - right. right. right. left. rewrite handleExit_close. apply close_output.
  - unfold fire. destruct (active id g).
    + right. right. left. rewrite sendQuarterFrame_output.
      eexists. reflexivity.
    + left. reflexivity.
  - destruct (reconnect_cases names g)
      as [(_ & ->) | (port & name & Hn & Hi & ->)].
    + left. reflexivity.
    + right. right. right. right.
      exists names, port, name.
      split; [reflexivity |]. split; [exact Hn |].
      split; [apply includes_substring; exact Hi | reflexivity].
  - left. reflexivity.
Qed.
